(* ===================================================================== *)
(* z3_recipes: recipes.py and refinement.py                              *)
(*                                                                       *)
(* A shallow embedding of the profile model (MacroTriple), the           *)
(* constraint formulator (recipeFormula) and the two model enumerators   *)
(* (getMultipleRecipeModels, refinement), with the solving engine kept   *)
(* abstract: z3's check and model are section variables, and the only    *)
(* fact assumed about them is that a model returned after `sat`          *)
(* satisfies every assertion of the solver.                              *)
(* ===================================================================== *)

From Stdlib Require Import QArith Qfield ZArith Lia Lqa.
From stdpp Require Import gmap strings list fin_maps.

Local Open Scope Q_scope.

(* --------------------------------------------------------------------- *)
(* Python results                                                        *)
(* --------------------------------------------------------------------- *)

(** The exceptions of the development.  [ZeroDivisionError] and
    [OverflowError] are what Python's division can raise, [IndexError]
    what indexing a list can raise; the other four are the error kinds the
    specification names, which no statement of the source raises. *)
Inductive exn : Type :=
  | ZeroDivisionError
  | OverflowError
  | IndexError
  | InvalidProfileError
  | InvalidBoundsError
  | EmptyIngredientListError
  | SolverUnknownError.

Inductive result (A : Type) : Type :=
  | Ok (a : A)
  | Raise (e : exn).
Arguments Ok {A} a.
Arguments Raise {A} e.

(* --------------------------------------------------------------------- *)
(* The z3 side: terms, constraints, models                               *)
(* --------------------------------------------------------------------- *)

(** Real-sorted z3 terms as the source builds them: constants made by
    [z3.Real], numerals coerced from Python numbers, [*] and [+]. *)
Inductive ArithRef : Type :=
  | RealConst (x : string)
  | RealVal (q : Q)
  | Mul (a b : ArithRef)
  | Add (a b : ArithRef).

(** Boolean z3 terms: the comparisons the source uses and [z3.Or]. *)
#[warnings="-register-all"]
Inductive BoolRef : Type :=
  | Gt (a b : ArithRef)
  | Lt (a b : ArithRef)
  | Ge (a b : ArithRef)
  | Eq (a b : ArithRef)
  | Ne (a b : ArithRef)
  | Or (args : list BoolRef).

(** A z3 model: the constants it assigns ([decls]) and their values. *)
Abbreviation ModelRef := (gmap string Q).

Definition decls (m : ModelRef) : list string := (map_to_list m).*1.

(** [model[d]] for a declaration [d] of the model; a constant the model
    leaves open reads as 0, z3's completion for reals. *)
Definition model_get (m : ModelRef) (d : string) : Q := default 0 (m !! d).

Fixpoint eval (m : ModelRef) (t : ArithRef) : Q :=
  match t with
  | RealConst x => model_get m x
  | RealVal q => q
  | Mul a b => eval m a * eval m b
  | Add a b => eval m a + eval m b
  end.

Definition Qlt_bool (a b : Q) : bool := negb (Qle_bool b a).

Fixpoint holds (m : ModelRef) (c : BoolRef) : bool :=
  match c with
  | Gt a b => Qlt_bool (eval m b) (eval m a)
  | Lt a b => Qlt_bool (eval m a) (eval m b)
  | Ge a b => Qle_bool (eval m b) (eval m a)
  | Eq a b => Qeq_bool (eval m a) (eval m b)
  | Ne a b => negb (Qeq_bool (eval m a) (eval m b))
  | Or args => existsb (holds m) args
  end.

(** A solver is the list of its assertions, in the order they were added. *)
Definition Solver : Type := list BoolRef.

Definition Solver_new : Solver := [].
Definition Solver_add (s : Solver) (c : BoolRef) : Solver := s ++ [c].

Inductive CheckSatResult : Type := sat | unsat | unknown.

Definition is_sat (r : CheckSatResult) : bool :=
  match r with sat => true | _ => false end.

(* --------------------------------------------------------------------- *)
(* The z3 context and the monad of code that declares constants          *)
(* --------------------------------------------------------------------- *)

(** The process-wide z3 context, as far as the source touches it: the
    names of the real constants declared so far. *)
Abbreviation Context := (gset string).

(** Code that may declare constants and may raise.  The context is
    returned in both cases: what was declared stays declared. *)
Definition Z3 (A : Type) : Type := Context -> result A * Context.

Definition ret {A} (a : A) : Z3 A := fun ctx => (Ok a, ctx).

Definition raise {A} (e : exn) : Z3 A := fun ctx => (Raise e, ctx).

Definition bind {A B} (m : Z3 A) (k : A -> Z3 B) : Z3 B :=
  fun ctx =>
    match m ctx with
    | (Ok a, ctx') => k a ctx'
    | (Raise e, ctx') => (Raise e, ctx')
    end.

Declare Scope z3_scope.
Delimit Scope z3_scope with z3.
Notation "'let*' x ':=' m 'in' k" := (bind m (fun x => k))
  (at level 10, x name, m at level 100, k at level 200) : z3_scope.
Notation "'let*' ' p ':=' m 'in' k" := (bind m (fun x => let 'p := x in k))
  (at level 10, p pattern, m at level 100, k at level 200) : z3_scope.

(** [z3.Real(name)]: the real constant of that name in the context.  A
    constant is identified by its name, so asking twice for one name gives
    the same term, and the context gains nothing the second time. *)
Definition z3_Real (name : string) : Z3 ArithRef :=
  fun ctx => (Ok (RealConst name), {[ name ]} ∪ ctx).

(* --------------------------------------------------------------------- *)
(* recipes.py: MacroTriple                                               *)
(* --------------------------------------------------------------------- *)

Module MacroTriple.
Record t : Type := {
  name : string;
  fat : Q;
  carbs : Q;
  protien : Q
}.
End MacroTriple.
Abbreviation MacroTriple := MacroTriple.t.

(** What [MacroTriple.__init__] leaves on [self]: the name and the three
    quotients, whatever numbers they are.  [MacroTriple.t] above is this
    record for finite attributes, each read as the rational it denotes;
    those are the profiles the formulator can hand to z3. *)
Record Constructed (number : Type) : Type := {
  self_name : string;
  self_fat : number;
  self_carbs : number;
  self_protien : number
}.
Arguments self_name {number} c.
Arguments self_fat {number} c.
Arguments self_carbs {number} c.
Arguments self_protien {number} c.

Definition as_profile (o : Constructed Q) : MacroTriple :=
  {| MacroTriple.name := self_name o; MacroTriple.fat := self_fat o;
     MacroTriple.carbs := self_carbs o;
     MacroTriple.protien := self_protien o |}.

Section Constructor.

(** Python's numbers (ints and floats, float's infinities and nan
    included) and its true division [/]: the source uses them and does not
    define them.  The quotient is whatever Python computes, a rounded
    float in general. *)
Variable number : Type.
Variable truediv : number -> number -> result number.


End Constructor.



(** [MacroTriple.with_coef]. *)
Definition with_coef (self : MacroTriple) : Z3 (Q * Q * Q * ArithRef) :=
  (let* coefficient := z3_Real ("K_" +:+ MacroTriple.name self) in
   ret (MacroTriple.fat self, MacroTriple.carbs self,
        MacroTriple.protien self, coefficient))%z3.

(** [MacroTriple.__iter__]: the generator yields the four components of
    one [with_coef] call; every unpacking of a profile in the source binds
    exactly four targets. *)
Definition MacroTriple_iter (self : MacroTriple)
    : Z3 (Q * Q * Q * ArithRef) :=
  (let* '(fat, carbs, protien, coefficient) := with_coef self in
   ret (fat, carbs, protien, coefficient))%z3.

(* --------------------------------------------------------------------- *)
(* recipes.py: recipeFormula                                             *)
(* --------------------------------------------------------------------- *)

(** [ingredients[0]]. *)
Definition getitem0 {A} (l : list A) : Z3 A :=
  match l with
  | [] => raise IndexError
  | a :: _ => ret a
  end.

(** [itertools.pairwise]. *)
Fixpoint pairwise {A} (l : list A) : list (A * A) :=
  match l with
  | a :: (b :: _) as t => (a, b) :: pairwise t
  | _ => []
  end.

(** The loop over [ingredients[1::]]: its state is the solver and the
    three accumulated sums. *)
Fixpoint rest_loop (rest : list MacroTriple) (min_bound max_bound : Q)
    (st : Solver * ArithRef * ArithRef * ArithRef)
    : Z3 (Solver * ArithRef * ArithRef * ArithRef) :=
  match rest with
  | [] => ret st
  | ingredient :: rest' =>
    let '(s, f_eq, c_eq, p_eq) := st in
    (let* '(fat, carbs, protien, coefficient) :=
       MacroTriple_iter ingredient in
     let s := Solver_add s (Gt coefficient (RealVal min_bound)) in
     let s := Solver_add s (Lt coefficient (RealVal max_bound)) in
     let f_eq := Add f_eq (Mul coefficient (RealVal fat)) in
     let c_eq := Add c_eq (Mul coefficient (RealVal carbs)) in
     let p_eq := Add p_eq (Mul coefficient (RealVal protien)) in
     rest_loop rest' min_bound max_bound (s, f_eq, c_eq, p_eq))%z3
  end.

(** The loop over [it.pairwise(ingredients)]: both profiles of a pair are
    unpacked again, the first one first. *)
Fixpoint pair_loop (pairs : list (MacroTriple * MacroTriple)) (s : Solver)
    : Z3 Solver :=
  match pairs with
  | [] => ret s
  | (i1, i2) :: pairs' =>
    (let* '(_, _, _, coef1) := MacroTriple_iter i1 in
     let* '(_, _, _, coef2) := MacroTriple_iter i2 in
     let s := Solver_add s (Ge coef1 coef2) in
     pair_loop pairs' s)%z3
  end.

Definition recipeFormula (ingredients : list MacroTriple)
    (target : MacroTriple) (min_bound max_bound : Q) : Z3 Solver :=
  (let s := Solver_new in
   let* first := getitem0 ingredients in
   let* '(fat, carbs, protien, coefficient) := MacroTriple_iter first in
   let s := Solver_add s (Gt coefficient (RealVal min_bound)) in
   let s := Solver_add s (Lt coefficient (RealVal max_bound)) in
   let f_eq := Mul coefficient (RealVal fat) in
   let c_eq := Mul coefficient (RealVal carbs) in
   let p_eq := Mul coefficient (RealVal protien) in
   let* '(s, f_eq, c_eq, p_eq) :=
     rest_loop (drop 1 ingredients) min_bound max_bound
               (s, f_eq, c_eq, p_eq) in
   let* s := pair_loop (pairwise ingredients) s in
   let s := Solver_add s (Eq f_eq (RealVal (MacroTriple.fat target))) in
   let s := Solver_add s (Eq c_eq (RealVal (MacroTriple.carbs target))) in
   let s := Solver_add s (Eq p_eq (RealVal (MacroTriple.protien target))) in
   ret s)%z3.

(* --------------------------------------------------------------------- *)
(* refinement.py and recipes.py: the enumerators                         *)
(* --------------------------------------------------------------------- *)

(** What a call leaves behind: the value returned, the caller's solver
    object as it is afterwards, and the lines printed. *)
Record Outcome (A : Type) : Type := {
  returned : A;
  solver_after : Solver;
  printed : list string
}.
Arguments returned {A} o.
Arguments solver_after {A} o.
Arguments printed {A} o.

(** The return value of [refinement]: [list[z3.ModelRef] | None]. *)
Inductive models_or_None : Type :=
  | PyNone
  | PyList (models : list ModelRef).

(** The blocking clause of both enumerators: [z3.Or] of the list [block],
    which holds [d() != model[d]] for every [d] of [model.decls()]. *)
Definition blocking (model : ModelRef) : BoolRef :=
  Or (map (fun d => Ne (RealConst d) (RealVal (model_get model d)))
          (decls model)).

(** The models a call of [refinement] hands to its caller. *)
Definition models_of (r : models_or_None) : list ModelRef :=
  match r with
  | PyNone => []
  | PyList models => models
  end.

Section Enumerator.

(** The solving engine: [solver.check()] and [solver.model()], as
    functions of the assertions the solver holds. *)
Variable z3_check : Solver -> CheckSatResult.
Variable z3_model : Solver -> ModelRef.

(** The [while] loop, the same statements in both files.  [fuel] bounds
    the number of times the loop condition is evaluated; [None] means the
    fuel ran out before the condition failed. *)
Fixpoint while_loop (fuel : nat) (solver : Solver) (models : list ModelRef)
    (count max_models : Z) : option (Solver * list ModelRef) :=
  match fuel with
  | O => None
  | S fuel' =>
    if is_sat (z3_check solver) && (count <? max_models)%Z then
      let model := z3_model solver in
      let models := models ++ [model] in
      let solver := Solver_add solver (blocking model) in
      while_loop fuel' solver models (count + 1) max_models
    else Some (solver, models)
  end.

(** The condition is evaluated at most [max_models] + 1 times. *)
Definition enough_fuel (max_models : Z) : nat := S (Z.to_nat max_models).

(** recipes.py *)
Definition getMultipleRecipeModels (solver : Solver) (max_models : Z)
    : option (Outcome (list ModelRef)) :=
  match while_loop (enough_fuel max_models) solver [] 0 max_models with
  | None => None
  | Some (solver, models) =>
    let out := if (length models =? 0)%nat
               then ["No recipes found."%string] else [] in
    Some {| returned := models; solver_after := solver; printed := out |}
  end.

(** refinement.py *)
Definition refinement (solver : Solver) (max_models : Z)
    : option (Outcome models_or_None) :=
  match while_loop (enough_fuel max_models) solver [] 0 max_models with
  | None => None
  | Some (solver, models) =>
    if (length models =? 0)%nat
    then Some {| returned := PyNone; solver_after := solver;
                 printed := ["No satisfying assignments found."%string] |}
    else Some {| returned := PyList models; solver_after := solver;
                 printed := [] |}
  end.

(** Run on [s] with [max_models], both enumerators return, and [models]
    is what each of them hands to its caller. *)
Definition emits (s : Solver) (max_models : Z) (models : list ModelRef)
    : Prop :=
  (exists out, getMultipleRecipeModels s max_models = Some out
               /\ returned out = models) /\
  (exists out, refinement s max_models = Some out
               /\ models_of (returned out) = models).

End Enumerator.

(* --------------------------------------------------------------------- *)
(* A small solving engine to run the enumerators on                      *)
(* --------------------------------------------------------------------- *)

(** A stand-in for z3 that searches a finite list of candidate models: it
    answers [sat] with the first candidate satisfying every assertion, and
    [unsat] when there is none. *)
Module Stub.

Definition satisfies (s : Solver) (m : ModelRef) : bool :=
  forallb (holds m) s.

Definition check (candidates : list ModelRef) (s : Solver)
    : CheckSatResult :=
  if existsb (satisfies s) candidates then sat else unsat.

Definition model (candidates : list ModelRef) (s : Solver) : ModelRef :=
  default ∅ (List.find (satisfies s) candidates).

(** An engine that gives up on every query. *)
Definition gives_up (s : Solver) : CheckSatResult := unknown.

End Stub.

(* --------------------------------------------------------------------- *)
(* Notions the properties are stated with                                *)
(* --------------------------------------------------------------------- *)

(** Two assignments are the same when they assign the same constants and
    give each of them the same rational. *)
Definition same_assignment (m1 m2 : ModelRef) : Prop :=
  forall d : string,
    match m1 !! d, m2 !! d with
    | Some v1, Some v2 => v1 == v2
    | None, None => True
    | _, _ => False
    end.

(** The solver the [k]-th model was read from: the one passed in plus
    the blocking clauses of the models found before. *)
Definition solver_at (s : Solver) (found : list ModelRef) (k : nat)
    : Solver :=
  s ++ map blocking (take k found).

(** An engine whose every [unknown] is read as [unsat]. *)
Definition unknown_as_unsat (r : CheckSatResult) : CheckSatResult :=
  match r with
  | unknown => unsat
  | r => r
  end.

(** The coefficient a [with_coef] call handed back, if it returned. *)
Definition returned_coefficient
    (r : result (Q * Q * Q * ArithRef) * Context) : option ArithRef :=
  match r with
  | (Ok (_, _, _, coefficient), _) => Some coefficient
  | (Raise _, _) => None
  end.

(** The constant [with_coef] returns for a profile. *)
Definition coefficient_of (p : MacroTriple) : ArithRef :=
  RealConst ("K_" +:+ MacroTriple.name p).

(** The value a model gives the coefficient of a profile. *)
Definition coefficient_value (m : ModelRef) (p : MacroTriple) : Q :=
  model_get m ("K_" +:+ MacroTriple.name p).

(** The specification's weighted sum of one macro-nutrient [f] over the
    ingredients: the sum of coefficient_i * f_i. *)
Definition weighted_sum (m : ModelRef) (f : MacroTriple -> Q)
    (ingredients : list MacroTriple) : Q :=
  foldr (fun p acc => coefficient_value m p * f p + acc) 0 ingredients.

Definition bound_constraints (min_bound max_bound : Q)
    (ingredients : list MacroTriple) : list BoolRef :=
  flat_map (fun p => [Gt (coefficient_of p) (RealVal min_bound);
                      Lt (coefficient_of p) (RealVal max_bound)])
           ingredients.

Definition order_constraints (ingredients : list MacroTriple)
    : list BoolRef :=
  map (fun pq => Ge (coefficient_of pq.1) (coefficient_of pq.2))
      (pairwise ingredients).

Definition accumulate (f : MacroTriple -> Q) (acc : ArithRef)
    (rest : list MacroTriple) : ArithRef :=
  fold_left (fun acc p => Add acc (Mul (coefficient_of p) (RealVal (f p))))
            rest acc.

Definition linear_sum (f : MacroTriple -> Q) (ingredients : list MacroTriple)
    : ArithRef :=
  match ingredients with
  | [] => RealVal 0
  | first :: rest =>
    accumulate f (Mul (coefficient_of first) (RealVal (f first))) rest
  end.

Definition target_constraints (ingredients : list MacroTriple)
    (target : MacroTriple) : list BoolRef :=
  [Eq (linear_sum MacroTriple.fat ingredients)
      (RealVal (MacroTriple.fat target));
   Eq (linear_sum MacroTriple.carbs ingredients)
      (RealVal (MacroTriple.carbs target));
   Eq (linear_sum MacroTriple.protien ingredients)
      (RealVal (MacroTriple.protien target))].

(* --------------------------------------------------------------------- *)
(* Two small problems to run the code on                                 *)
(* --------------------------------------------------------------------- *)

Module Scenario.

Definition A : MacroTriple :=
  {| MacroTriple.name := "A"; MacroTriple.fat := 1;
     MacroTriple.carbs := 0; MacroTriple.protien := 0 |}.

Definition B : MacroTriple :=
  {| MacroTriple.name := "B"; MacroTriple.fat := 1;
     MacroTriple.carbs := 0; MacroTriple.protien := 0 |}.

(** Four units of fat: K_A + K_B = 4 has many solutions. *)
Definition target : MacroTriple :=
  {| MacroTriple.name := "T"; MacroTriple.fat := 4;
     MacroTriple.carbs := 0; MacroTriple.protien := 0 |}.

(** Forty units of fat are out of reach with both coefficients below 10. *)
Definition far_target : MacroTriple :=
  {| MacroTriple.name := "T"; MacroTriple.fat := 40;
     MacroTriple.carbs := 0; MacroTriple.protien := 0 |}.

(** A second, unrelated problem with an ingredient that is also called
    "A" and has another profile. *)
Definition other_A : MacroTriple :=
  {| MacroTriple.name := "A"; MacroTriple.fat := 0;
     MacroTriple.carbs := 3; MacroTriple.protien := 0 |}.

Definition other_target : MacroTriple :=
  {| MacroTriple.name := "T2"; MacroTriple.fat := 0;
     MacroTriple.carbs := 6; MacroTriple.protien := 0 |}.

(** The solver a [recipeFormula] call returned, the empty one if it
    raised. *)
Definition built (r : result Solver * Context) : Solver :=
  match r with
  | (Ok s, _) => s
  | (Raise _, _) => []
  end.

Definition system : Solver := built (recipeFormula [A; B] target 1 10 ∅).

(** The z3 context after building [system] in a fresh process. *)
Definition declared : Context := {[ "K_B"%string; "K_A"%string ]}.

Definition far_system : Solver :=
  built (recipeFormula [A; B] far_target 1 10 ∅).

Definition m1 : ModelRef :=
  {[ "K_A"%string := 5 # 2; "K_B"%string := 3 # 2 ]}.
Definition m2 : ModelRef := {[ "K_A"%string := 2; "K_B"%string := 2 ]}.

Definition candidates : list ModelRef := [m1; m2].

End Scenario.

(* --------------------------------------------------------------------- *)
(* Notions the further properties are stated with                        *)
(* --------------------------------------------------------------------- *)

(** Run on [s] with [max_models], both enumerators return, [models] is
    what each of them hands to its caller, and [s'] is the solver each of
    them leaves behind. *)
Definition enumerates
    (z3_check : Solver -> CheckSatResult) (z3_model : Solver -> ModelRef)
    (s : Solver) (max_models : Z) (models : list ModelRef) (s' : Solver)
    : Prop :=
  (exists out,
     getMultipleRecipeModels z3_check z3_model s max_models = Some out /\
     returned out = models /\ solver_after out = s') /\
  (exists out,
     refinement z3_check z3_model s max_models = Some out /\
     models_of (returned out) = models /\ solver_after out = s').

(** A model satisfies every assertion of a solver. *)
Definition satisfies_all (m : ModelRef) (s : Solver) : Prop :=
  forallb (holds m) s = true.

(** [m'] gives every constant that [m] assigns the value [m] gives it. *)
Definition agrees_on_decls (m m' : ModelRef) : Prop :=
  forall d v, m !! d = Some v -> model_get m' d == v.

(** The sum of one macro-nutrient's densities over the ingredients. *)
Definition total_density (f : MacroTriple -> Q)
    (ingredients : list MacroTriple) : Q :=
  foldr (fun p acc => f p + acc) 0 ingredients.

(** The names of the constants of an ingredient list. *)
Definition coefficient_names (ingredients : list MacroTriple)
    : gset string :=
  list_to_set (map (fun p => "K_" +:+ MacroTriple.name p) ingredients).

(** The specification's end-to-end scenario: one unit of fat per unit of
    A, one unit of carbs per unit of B, and a target of two of each. *)
Module Unique.

Definition A : MacroTriple :=
  {| MacroTriple.name := "A"; MacroTriple.fat := 1;
     MacroTriple.carbs := 0; MacroTriple.protien := 0 |}.

Definition B : MacroTriple :=
  {| MacroTriple.name := "B"; MacroTriple.fat := 0;
     MacroTriple.carbs := 1; MacroTriple.protien := 0 |}.

Definition target : MacroTriple :=
  {| MacroTriple.name := "T"; MacroTriple.fat := 2;
     MacroTriple.carbs := 2; MacroTriple.protien := 0 |}.

Definition system : Solver :=
  Scenario.built (recipeFormula [A; B] target 1 10 ∅).

Definition solution : ModelRef :=
  {[ "K_A"%string := 2; "K_B"%string := 2 ]}.

Definition candidates : list ModelRef := [solution].

End Unique.

(* ===================================================================== *)
(* Properties                                                            *)
(* ===================================================================== *)

(* --------------------------------------------------------------------- *)
(* Satisfaction                                                          *)
(* --------------------------------------------------------------------- *)

Lemma Qlt_bool_iff (a b : Q) : Qlt_bool a b = true <-> a < b.
Proof.
  unfold Qlt_bool. rewrite negb_true_iff. split.
  - intros H. apply Qnot_le_lt. intros Hle.
    apply Qle_bool_iff in Hle. congruence.
  - intros H. destruct (Qle_bool b a) eqn:E; [|reflexivity].
    apply Qle_bool_iff in E. exfalso. exact (Qlt_not_le _ _ H E).
Qed.

Lemma model_get_Some (m : ModelRef) (d : string) (v : Q) :
  m !! d = Some v -> model_get m d = v.
Proof. unfold model_get. intros ->. reflexivity. Qed.

Lemma elem_of_decls (m : ModelRef) (d : string) :
  d ∈ decls m <-> exists v, m !! d = Some v.
Proof.
  unfold decls. rewrite list_elem_of_fmap. split.
  - intros [[d' v] [-> H]]. exists v. by apply elem_of_map_to_list in H.
  - intros [v H]. exists (d, v). split; [reflexivity|].
    by apply elem_of_map_to_list.
Qed.

(** A model passes the blocking clause of [m] exactly when it gives some
    constant that [m] assigns a value other than the one [m] gives it. *)
Lemma holds_blocking (m' m : ModelRef) :
  holds m' (blocking m) = true <->
  exists d v, m !! d = Some v /\ ~ model_get m' d == v.
Proof.
  unfold blocking. cbn [holds]. rewrite existsb_exists. split.
  - intros [c [Hin Hc]]. apply in_map_iff in Hin as [d [<- Hd]].
    apply list_elem_of_In, elem_of_decls in Hd as [v Hv].
    exists d, v. split; [exact Hv|].
    cbn [holds eval] in Hc. rewrite (model_get_Some _ _ _ Hv) in Hc.
    apply negb_true_iff in Hc. intros Heq.
    apply Qeq_bool_iff in Heq. congruence.
  - intros (d & v & Hv & Hne).
    exists (Ne (RealConst d) (RealVal (model_get m d))). split.
    + apply in_map_iff. exists d. split; [reflexivity|].
      apply list_elem_of_In, elem_of_decls. eauto.
    + cbn [holds eval]. rewrite (model_get_Some _ _ _ Hv).
      apply negb_true_iff. destruct (Qeq_bool _ _) eqn:E; [|reflexivity].
      apply Qeq_bool_iff in E. contradiction.
Qed.

Lemma same_assignment_refl (m : ModelRef) : same_assignment m m.
Proof. intros d. destruct (m !! d); [reflexivity|exact I]. Qed.

Lemma blocking_rejects_same (m1 m2 : ModelRef) :
  same_assignment m1 m2 -> holds m2 (blocking m1) = false.
Proof.
  intros Hsame. destruct (holds m2 (blocking m1)) eqn:E; [|reflexivity].
  apply holds_blocking in E as (d & v & Hv & Hne). exfalso. apply Hne.
  specialize (Hsame d). rewrite Hv in Hsame. unfold model_get.
  destruct (m2 !! d) as [v2|]; [|contradiction]. cbn. symmetry. exact Hsame.
Qed.

(* --------------------------------------------------------------------- *)
(* The loop of the enumerators                                           *)
(* --------------------------------------------------------------------- *)

Section EnumeratorFacts.

Variable z3_check : Solver -> CheckSatResult.
Variable z3_model : Solver -> ModelRef.

Lemma while_loop_spec (fuel : nat) :
  forall (s : Solver) (ms : list ModelRef) (c max : Z) s' ms',
    while_loop z3_check z3_model fuel s ms c max = Some (s', ms') ->
    exists found : list ModelRef,
      ms' = ms ++ found /\
      s' = s ++ map blocking found /\
      (Z.of_nat (length found) <= Z.max 0 (max - c))%Z /\
      (forall k m, found !! k = Some m ->
         z3_check (solver_at s found k) = sat /\
         m = z3_model (solver_at s found k)) /\
      is_sat (z3_check s') && (c + Z.of_nat (length found) <? max)%Z
        = false.
Proof.
  induction fuel as [|fuel IH]; intros s ms c max s' ms' H;
    cbn [while_loop] in H; [discriminate|].
  destruct (is_sat (z3_check s) && (c <? max)%Z) eqn:Hcond.
  - apply IH in H as (found & -> & -> & Hlen & Hk & Hstop).
    apply andb_true_iff in Hcond as [Hsat Hlt].
    apply Z.ltb_lt in Hlt.
    exists (z3_model s :: found).
    split; [|split; [|split; [|split; [intros k m H; split|]]]].
    + by rewrite <- app_assoc.
    + unfold Solver_add. by rewrite <- app_assoc.
    + cbn [length]. lia.
    + destruct k as [|k]; cbn in H.
      * unfold solver_at. cbn. rewrite app_nil_r.
        destruct (z3_check s); done.
      * apply Hk in H as [H _]. unfold solver_at, Solver_add in *.
        cbn. by rewrite <- app_assoc in H.
    + destruct k as [|k]; cbn in H.
      * unfold solver_at. cbn. rewrite app_nil_r. congruence.
      * apply Hk in H as [_ H]. unfold solver_at, Solver_add in *.
        cbn. by rewrite <- app_assoc in H.
    + replace (c + Z.of_nat (length (z3_model s :: found)))%Z
        with (c + 1 + Z.of_nat (length found))%Z by (cbn [length]; lia).
      exact Hstop.
  - injection H as <- <-. exists []. cbn. rewrite !app_nil_r.
    split; [reflexivity|]. split; [reflexivity|]. split; [lia|].
    split; [intros k m H; by destruct k|].
    rewrite Z.add_0_r. exact Hcond.
Qed.

Lemma while_loop_total (fuel : nat) :
  forall (s : Solver) (ms : list ModelRef) (c max : Z),
    (Z.to_nat (max - c) < fuel)%nat ->
    exists r, while_loop z3_check z3_model fuel s ms c max = Some r.
Proof.
  induction fuel as [|fuel IH]; intros s ms c max Hfuel; [lia|].
  cbn [while_loop].
  destruct (is_sat (z3_check s) && (c <? max)%Z) eqn:Hcond; [|eauto].
  apply andb_true_iff in Hcond as [_ Hlt]. apply Z.ltb_lt in Hlt.
  apply IH. lia.
Qed.

Lemma enumerators_run (s : Solver) (max : Z) :
  exists s' ms,
    while_loop z3_check z3_model (enough_fuel max) s [] 0 max
      = Some (s', ms).
Proof.
  destruct (while_loop_total (enough_fuel max) s [] 0 max) as [[s' ms] H].
  - unfold enough_fuel. rewrite Z.sub_0_r. lia.
  - eauto.
Qed.

Lemma emits_while_loop (s : Solver) (max : Z) (models : list ModelRef) :
  emits z3_check z3_model s max models ->
  exists s',
    while_loop z3_check z3_model (enough_fuel max) s [] 0 max
      = Some (s', models).
Proof.
  unfold emits, getMultipleRecipeModels.
  destruct (while_loop _ _ _ _ _ _ _) as [[s' ms]|];
    intros [(out & H & <-) _]; [|discriminate].
  injection H as <-. eauto.
Qed.

(** No more than [max_models] models are returned. *)
Lemma emits_at_most_max (s : Solver) (max : Z) (models : list ModelRef) :
  emits z3_check z3_model s max models ->
  (Z.of_nat (length models) <= Z.max 0 max)%Z.
Proof.
  intros He. apply emits_while_loop in He as [s' He].
  apply while_loop_spec in He as (found & Hms & _ & Hlen & _).
  cbn in Hms. subst found. by rewrite Z.sub_0_r in Hlen.
Qed.

Lemma emits_total (s : Solver) (max : Z) :
  exists models, emits z3_check z3_model s max models.
Proof.
  destruct (enumerators_run s max) as (s' & ms & Hrun).
  exists ms. unfold emits, getMultipleRecipeModels, refinement.
  rewrite Hrun. split.
  - eexists. split; reflexivity.
  - destruct ms as [|m ms]; eexists; (split; [reflexivity|]); reflexivity.
Qed.

(** The one fact used about the solving engine: after [sat], the model
    it returns satisfies every assertion it holds. *)
Hypothesis z3_sound :
  forall s : Solver,
    z3_check s = sat -> forallb (holds (z3_model s)) s = true.

Lemma emitted_model_holds (s : Solver) (max : Z) (models : list ModelRef)
    (k : nat) (m : ModelRef) :
  emits z3_check z3_model s max models ->
  models !! k = Some m ->
  forallb (holds m) (solver_at s models k) = true.
Proof.
  intros He Hk. apply emits_while_loop in He as [s' He].
  apply while_loop_spec in He as (found & Hms & _ & _ & Hfound & _).
  cbn in Hms. subst found.
  apply Hfound in Hk as [Hsat ->]. by apply z3_sound.
Qed.

End EnumeratorFacts.

(* --------------------------------------------------------------------- *)
(* The system recipeFormula builds                                       *)
(* --------------------------------------------------------------------- *)
Lemma with_coef_run (p : MacroTriple) (ctx : Context) :
  with_coef p ctx =
  (Ok (MacroTriple.fat p, MacroTriple.carbs p, MacroTriple.protien p,
       coefficient_of p),
   {[ "K_" +:+ MacroTriple.name p ]} ∪ ctx).
Proof. reflexivity. Qed.

Lemma MacroTriple_iter_run (p : MacroTriple) (ctx : Context) :
  MacroTriple_iter p ctx = with_coef p ctx.
Proof. reflexivity. Qed.

Lemma rest_loop_run (lo hi : Q) (rest : list MacroTriple) :
  forall (s : Solver) (f c p : ArithRef) (ctx : Context),
    exists ctx',
      rest_loop rest lo hi (s, f, c, p) ctx =
      (Ok (s ++ bound_constraints lo hi rest,
           accumulate MacroTriple.fat f rest,
           accumulate MacroTriple.carbs c rest,
           accumulate MacroTriple.protien p rest), ctx').
Proof.
  induction rest as [|q rest IH]; intros s f c p ctx.
  - exists ctx. cbn. by rewrite app_nil_r.
  - cbn [rest_loop]. unfold bind at 1.
    rewrite MacroTriple_iter_run, with_coef_run.
    edestruct IH as [ctx' ->]. exists ctx'.
    unfold Solver_add. cbn. by rewrite <- !app_assoc.
Qed.

Lemma pair_loop_run (pairs : list (MacroTriple * MacroTriple)) :
  forall (s : Solver) (ctx : Context),
    exists ctx',
      pair_loop pairs s ctx =
      (Ok (s ++ map (fun pq => Ge (coefficient_of pq.1) (coefficient_of pq.2))
                    pairs), ctx').
Proof.
  induction pairs as [|[p q] pairs IH]; intros s ctx.
  - exists ctx. cbn. by rewrite app_nil_r.
  - cbn [pair_loop]. unfold bind at 1.
    rewrite MacroTriple_iter_run, with_coef_run. unfold bind at 1.
    rewrite MacroTriple_iter_run, with_coef_run.
    edestruct IH as [ctx' ->]. exists ctx'.
    unfold Solver_add. cbn. by rewrite <- !app_assoc.
Qed.

(** What [recipeFormula] returns for a non-empty ingredient list: the
    bounds of every ingredient, the order of every adjacent pair, the
    three target equalities. *)
Lemma recipeFormula_run (first : MacroTriple) (rest : list MacroTriple)
    (target : MacroTriple) (lo hi : Q) (ctx : Context) :
  exists ctx',
    recipeFormula (first :: rest) target lo hi ctx =
    (Ok (bound_constraints lo hi (first :: rest)
         ++ order_constraints (first :: rest)
         ++ target_constraints (first :: rest) target), ctx').
Proof.
  unfold recipeFormula. cbn [getitem0 drop]. unfold bind at 1, ret at 1.
  unfold bind at 1. rewrite MacroTriple_iter_run, with_coef_run.
  unfold bind at 1.
  edestruct rest_loop_run as [ctx1 ->].
  unfold bind at 1.
  edestruct pair_loop_run as [ctx2 ->].
  exists ctx2. unfold ret, Solver_add, Solver_new, order_constraints,
    target_constraints, linear_sum.
  cbn. by rewrite <- !app_assoc.
Qed.

Lemma recipeFormula_Ok (ingredients : list MacroTriple)
    (target : MacroTriple) (lo hi : Q) (ctx ctx' : Context) (s : Solver) :
  recipeFormula ingredients target lo hi ctx = (Ok s, ctx') ->
  s = bound_constraints lo hi ingredients
      ++ order_constraints ingredients
      ++ target_constraints ingredients target.
Proof.
  intros H. destruct ingredients as [|first rest]; [discriminate|].
  destruct (recipeFormula_run first rest target lo hi ctx) as [ctx1 Hrun].
  rewrite Hrun in H. congruence.
Qed.

Lemma eval_accumulate (m : ModelRef) (f : MacroTriple -> Q)
    (rest : list MacroTriple) :
  forall acc : ArithRef,
    eval m (accumulate f acc rest) == eval m acc + weighted_sum m f rest.
Proof.
  unfold accumulate, weighted_sum.
  induction rest as [|p rest IH]; intros acc; cbn [fold_left foldr].
  - ring.
  - rewrite IH. cbn [eval coefficient_of]. unfold coefficient_value. ring.
Qed.

Lemma eval_linear_sum (m : ModelRef) (f : MacroTriple -> Q)
    (ingredients : list MacroTriple) :
  eval m (linear_sum f ingredients) == weighted_sum m f ingredients.
Proof.
  destruct ingredients as [|first rest]; cbn [linear_sum].
  - reflexivity.
  - rewrite eval_accumulate. unfold weighted_sum at 2. cbn [foldr].
    fold (weighted_sum m f rest). cbn [eval coefficient_of].
    unfold coefficient_value. ring.
Qed.

Lemma bound_constraints_elem (lo hi : Q) (ings : list MacroTriple)
    (p : MacroTriple) :
  p ∈ ings ->
  Gt (coefficient_of p) (RealVal lo) ∈ bound_constraints lo hi ings /\
  Lt (coefficient_of p) (RealVal hi) ∈ bound_constraints lo hi ings.
Proof.
  intros Hp. apply list_elem_of_In in Hp. unfold bound_constraints.
  split; apply list_elem_of_In, in_flat_map; exists p; cbn; auto.
Qed.

Lemma pairwise_lookup {A : Type} (l : list A) :
  forall (i : nat) (p q : A),
    l !! i = Some p -> l !! S i = Some q -> (p, q) ∈ pairwise l.
Proof.
  induction l as [|a l IH]; intros i p q Hp Hq; [discriminate|].
  destruct l as [|b l]; [discriminate|].
  destruct i as [|i].
  - cbn in Hp, Hq. injection Hp as <-. injection Hq as <-.
    cbn [pairwise]. apply list_elem_of_here.
  - cbn [pairwise]. apply list_elem_of_further.
    apply (IH i); [exact Hp|exact Hq].
Qed.

Lemma order_constraints_elem (ings : list MacroTriple) (i : nat)
    (p q : MacroTriple) :
  ings !! i = Some p -> ings !! S i = Some q ->
  Ge (coefficient_of p) (coefficient_of q) ∈ order_constraints ings.
Proof.
  intros Hp Hq. unfold order_constraints.
  apply list_elem_of_In, in_map_iff. exists (p, q). split; [reflexivity|].
  apply list_elem_of_In. by apply (pairwise_lookup ings i).
Qed.

(* --------------------------------------------------------------------- *)
(* The stand-in engine is sound                                          *)
(* --------------------------------------------------------------------- *)

Lemma Stub_sound (candidates : list ModelRef) (s : Solver) :
  Stub.check candidates s = sat ->
  forallb (holds (Stub.model candidates s)) s = true.
Proof.
  unfold Stub.check, Stub.model. intros H.
  destruct (List.find (Stub.satisfies s) candidates) as [m|] eqn:E.
  - apply find_some in E as [_ E]. exact E.
  - destruct (existsb (Stub.satisfies s) candidates) eqn:Ex;
      [|discriminate].
    apply existsb_exists in Ex as [m [Hin Hm]].
    apply (find_none _ _ E) in Hin. congruence.
Qed.

(* --------------------------------------------------------------------- *)
(* What every emitted model satisfies                                    *)
(* --------------------------------------------------------------------- *)

Section SoundEngine.

Variable z3_check : Solver -> CheckSatResult.
Variable z3_model : Solver -> ModelRef.
Hypothesis z3_sound :
  forall s : Solver,
    z3_check s = sat -> forallb (holds (z3_model s)) s = true.

Lemma emitted_model_satisfies (s : Solver) (max : Z)
    (models : list ModelRef) (m : ModelRef) (c : BoolRef) :
  emits z3_check z3_model s max models ->
  m ∈ models -> c ∈ s -> holds m c = true.
Proof.
  intros He Hm Hc. apply list_elem_of_lookup in Hm as [k Hk].
  pose proof (emitted_model_holds _ _ z3_sound _ _ _ _ _ He Hk) as H.
  rewrite forallb_forall in H. apply H, list_elem_of_In.
  unfold solver_at. apply elem_of_app. by left.
Qed.

Lemma later_model_passes_blocking (s : Solver) (max : Z)
    (models : list ModelRef) (i j : nat) (m1 m2 : ModelRef) :
  emits z3_check z3_model s max models ->
  (i < j)%nat -> models !! i = Some m1 -> models !! j = Some m2 ->
  holds m2 (blocking m1) = true.
Proof.
  intros He Hij H1 H2.
  pose proof (emitted_model_holds _ _ z3_sound _ _ _ _ _ He H2) as H.
  rewrite forallb_forall in H. apply H, list_elem_of_In.
  unfold solver_at. apply elem_of_app. right.
  apply list_elem_of_In, in_map, list_elem_of_In.
  apply (list_elem_of_lookup_2 _ i). by rewrite lookup_take_lt.
Qed.

End SoundEngine.

(* --------------------------------------------------------------------- *)
(* The claims                                                            *)
(* --------------------------------------------------------------------- *)

(** C1.  With a sound engine, whatever the system and [max_models], both
    enumerators return, and the models they return are pairwise different:
    a model found later gives some constant assigned by an earlier model a
    value other than the earlier one (it passes the earlier model's
    blocking clause), so the two are not the same assignment, and not the
    same map. *)
Theorem enumerated_models_distinct
    (z3_check : Solver -> CheckSatResult) (z3_model : Solver -> ModelRef)
    (z3_sound : forall s : Solver,
        z3_check s = sat -> forallb (holds (z3_model s)) s = true)
    (s : Solver) (max_models : Z) :
  exists models,
    emits z3_check z3_model s max_models models /\
    forall (i j : nat) (m1 m2 : ModelRef),
      (i < j)%nat -> models !! i = Some m1 -> models !! j = Some m2 ->
      (exists d v, m1 !! d = Some v /\ ~ model_get m2 d == v) /\
      ~ same_assignment m1 m2 /\
      m1 <> m2.
Proof.
  destruct (emits_total z3_check z3_model s max_models) as [models He].
  exists models. split; [exact He|]. intros i j m1 m2 Hij H1 H2.
  pose proof (later_model_passes_blocking _ _ z3_sound _ _ _ _ _ _ _
                He Hij H1 H2) as Hpass.
  split; [by apply holds_blocking|].
  assert (Hdiff : ~ same_assignment m1 m2).
  { intros Hsame. apply blocking_rejects_same in Hsame. congruence. }
  split; [exact Hdiff|].
  intros ->. apply Hdiff, same_assignment_refl.
Qed.

(** On the two-ingredient problem the stand-in engine finds both
    candidates, then nothing more. *)
Lemma Scenario_emits :
  emits (Stub.check Scenario.candidates) (Stub.model Scenario.candidates)
        Scenario.system 3 [Scenario.m1; Scenario.m2].
Proof. split; eexists; (split; [vm_compute; reflexivity|reflexivity]). Qed.

Lemma Scenario_built :
  recipeFormula [Scenario.A; Scenario.B] Scenario.target 1 10 ∅ =
  (Ok Scenario.system, Scenario.declared).
Proof. vm_compute. reflexivity. Qed.

(** C1 on the two-ingredient problem, with the stand-in engine. *)
Lemma enumerated_models_distinct_witness :
  exists models,
    emits (Stub.check Scenario.candidates) (Stub.model Scenario.candidates)
          Scenario.system 3 models /\
    forall (i j : nat) (m1 m2 : ModelRef),
      (i < j)%nat -> models !! i = Some m1 -> models !! j = Some m2 ->
      (exists d v, m1 !! d = Some v /\ ~ model_get m2 d == v) /\
      ~ same_assignment m1 m2 /\
      m1 <> m2.
Proof.
  exact (enumerated_models_distinct
           (Stub.check Scenario.candidates) (Stub.model Scenario.candidates)
           (Stub_sound Scenario.candidates) Scenario.system 3).
Defined.

(** C2.  With a sound engine, for every ingredient list and target that
    [recipeFormula] accepts, both enumerators return on the system it
    built, and every model they return gives the three weighted sums (fat,
    carbs, protein) exactly the target's values. *)
Theorem emitted_models_meet_target
    (z3_check : Solver -> CheckSatResult) (z3_model : Solver -> ModelRef)
    (z3_sound : forall s : Solver,
        z3_check s = sat -> forallb (holds (z3_model s)) s = true)
    (ingredients : list MacroTriple) (target : MacroTriple)
    (min_bound max_bound : Q) (ctx ctx' : Context) (s : Solver)
    (max_models : Z) :
  recipeFormula ingredients target min_bound max_bound ctx = (Ok s, ctx') ->
  exists models,
    emits z3_check z3_model s max_models models /\
    forall m : ModelRef,
      m ∈ models ->
      weighted_sum m MacroTriple.fat ingredients
        == MacroTriple.fat target /\
      weighted_sum m MacroTriple.carbs ingredients
        == MacroTriple.carbs target /\
      weighted_sum m MacroTriple.protien ingredients
        == MacroTriple.protien target.
Proof.
  intros Hbuild.
  destruct (emits_total z3_check z3_model s max_models) as [models He].
  exists models. split; [exact He|]. intros m Hm.
  apply recipeFormula_Ok in Hbuild. subst s.
  assert (Hsat : forall c, c ∈ target_constraints ingredients target ->
                           holds m c = true).
  { intros c Hc.
    apply (emitted_model_satisfies _ _ z3_sound _ _ _ _ _ He Hm).
    rewrite !elem_of_app. auto. }
  unfold target_constraints in Hsat.
  repeat split; rewrite <- eval_linear_sum; apply Qeq_bool_iff.
  - apply (Hsat (Eq (linear_sum MacroTriple.fat ingredients)
                    (RealVal (MacroTriple.fat target)))).
    set_solver.
  - apply (Hsat (Eq (linear_sum MacroTriple.carbs ingredients)
                    (RealVal (MacroTriple.carbs target)))).
    set_solver.
  - apply (Hsat (Eq (linear_sum MacroTriple.protien ingredients)
                    (RealVal (MacroTriple.protien target)))).
    set_solver.
Qed.

(** C2 on the two-ingredient problem, with the stand-in engine. *)
Lemma emitted_models_meet_target_witness :
  exists models,
    emits (Stub.check Scenario.candidates) (Stub.model Scenario.candidates)
          Scenario.system 3 models /\
    forall m : ModelRef,
      m ∈ models ->
      weighted_sum m MacroTriple.fat [Scenario.A; Scenario.B]
        == MacroTriple.fat Scenario.target /\
      weighted_sum m MacroTriple.carbs [Scenario.A; Scenario.B]
        == MacroTriple.carbs Scenario.target /\
      weighted_sum m MacroTriple.protien [Scenario.A; Scenario.B]
        == MacroTriple.protien Scenario.target.
Proof.
  apply (emitted_models_meet_target
           (Stub.check Scenario.candidates) (Stub.model Scenario.candidates)
           (Stub_sound Scenario.candidates)
           [Scenario.A; Scenario.B] Scenario.target 1 10 ∅ Scenario.declared
           Scenario.system 3).
  vm_compute. reflexivity.
Defined.

(** C3.  With a sound engine, both enumerators return on a system built
    by [recipeFormula], and in every model they return the coefficient of
    every ingredient lies strictly between [min_bound] and [max_bound],
    and of two ingredients adjacent in the supplied order the first has a
    coefficient at least as large as the second. *)
Theorem emitted_models_bounded_and_ordered
    (z3_check : Solver -> CheckSatResult) (z3_model : Solver -> ModelRef)
    (z3_sound : forall s : Solver,
        z3_check s = sat -> forallb (holds (z3_model s)) s = true)
    (ingredients : list MacroTriple) (target : MacroTriple)
    (min_bound max_bound : Q) (ctx ctx' : Context) (s : Solver)
    (max_models : Z) :
  recipeFormula ingredients target min_bound max_bound ctx = (Ok s, ctx') ->
  exists models,
    emits z3_check z3_model s max_models models /\
    forall m : ModelRef,
      m ∈ models ->
      (forall p, p ∈ ingredients ->
         min_bound < coefficient_value m p /\
         coefficient_value m p < max_bound) /\
      (forall i p q,
         ingredients !! i = Some p -> ingredients !! S i = Some q ->
         coefficient_value m q <= coefficient_value m p).
Proof.
  intros Hbuild.
  destruct (emits_total z3_check z3_model s max_models) as [models He].
  exists models. split; [exact He|]. intros m Hm.
  apply recipeFormula_Ok in Hbuild. subst s.
  pose proof (fun c => emitted_model_satisfies _ _ z3_sound _ _ _ _ c He Hm)
    as Hsat.
  split.
  - intros p Hp.
    destruct (bound_constraints_elem min_bound max_bound _ _ Hp)
      as [Hgt Hlt].
    split.
    + apply Qlt_bool_iff.
      apply (Hsat (Gt (coefficient_of p) (RealVal min_bound))).
      rewrite !elem_of_app. auto.
    + apply Qlt_bool_iff.
      apply (Hsat (Lt (coefficient_of p) (RealVal max_bound))).
      rewrite !elem_of_app. auto.
  - intros i p q Hp Hq. apply Qle_bool_iff.
    apply (Hsat (Ge (coefficient_of p) (coefficient_of q))).
    rewrite !elem_of_app. right. left.
    by apply (order_constraints_elem _ i).
Qed.

(** C3 on the two-ingredient problem, with the stand-in engine. *)
Lemma emitted_models_bounded_and_ordered_witness :
  exists models,
    emits (Stub.check Scenario.candidates) (Stub.model Scenario.candidates)
          Scenario.system 3 models /\
    forall m : ModelRef,
      m ∈ models ->
      (forall p, p ∈ [Scenario.A; Scenario.B] ->
         1 < coefficient_value m p /\ coefficient_value m p < 10) /\
      (forall i p q,
         [Scenario.A; Scenario.B] !! i = Some p ->
         [Scenario.A; Scenario.B] !! S i = Some q ->
         coefficient_value m q <= coefficient_value m p).
Proof.
  apply (emitted_models_bounded_and_ordered
           (Stub.check Scenario.candidates) (Stub.model Scenario.candidates)
           (Stub_sound Scenario.candidates)
           [Scenario.A; Scenario.B] Scenario.target 1 10 ∅ Scenario.declared
           Scenario.system 3).
  vm_compute. reflexivity.
Defined.

(** C4, as the code has it.  [recipeFormula] checks neither bound: for a
    non-empty ingredient list it returns, whatever [min_bound] and
    [max_bound] are, the system of the bounds, the order and the target
    constraints.  For an empty list it raises [IndexError] at
    [ingredients[0]], with nothing declared and no system returned. *)
Theorem recipeFormula_checks_only_emptiness
    (ingredients : list MacroTriple) (target : MacroTriple)
    (min_bound max_bound : Q) (ctx : Context) :
  match ingredients with
  | [] =>
    recipeFormula ingredients target min_bound max_bound ctx
    = (Raise IndexError, ctx)
  | _ :: _ =>
    exists ctx',
      recipeFormula ingredients target min_bound max_bound ctx
      = (Ok (bound_constraints min_bound max_bound ingredients
             ++ order_constraints ingredients
             ++ target_constraints ingredients target), ctx')
  end.
Proof.
  destruct ingredients as [|first rest].
  - reflexivity.
  - apply recipeFormula_run.
Qed.

(** C4 fails on the code: with [min_bound = 5] and [max_bound = 3], and
    with [min_bound = -1], a system is returned; with no ingredient the
    error is [IndexError]. *)
Lemma recipeFormula_validation_counterexample :
  (recipeFormula [Scenario.A; Scenario.B] Scenario.target 5 3 ∅).1
  = Ok (bound_constraints 5 3 [Scenario.A; Scenario.B]
        ++ order_constraints [Scenario.A; Scenario.B]
        ++ target_constraints [Scenario.A; Scenario.B] Scenario.target) /\
  (recipeFormula [Scenario.A; Scenario.B] Scenario.target (-1) 8 ∅).1
  = Ok (bound_constraints (-1) 8 [Scenario.A; Scenario.B]
        ++ order_constraints [Scenario.A; Scenario.B]
        ++ target_constraints [Scenario.A; Scenario.B] Scenario.target) /\
  (recipeFormula [] Scenario.target 1 8 ∅).1 = Raise IndexError /\
  Raise (A := Solver) IndexError <> Raise EmptyIngredientListError.
Proof. repeat split; [reflexivity..|discriminate]. Qed.






(** C6, as the code has it.  When the engine answers [unsat] for the
    system passed in, neither enumerator raises and neither adds anything
    to the system; [getMultipleRecipeModels] prints a line and returns the
    empty list, [refinement] prints a line and returns [None]. *)
Theorem unsat_outcomes
    (z3_check : Solver -> CheckSatResult) (z3_model : Solver -> ModelRef)
    (s : Solver) (max_models : Z) :
  z3_check s = unsat ->
  getMultipleRecipeModels z3_check z3_model s max_models
  = Some {| returned := []; solver_after := s;
            printed := ["No recipes found."%string] |} /\
  refinement z3_check z3_model s max_models
  = Some {| returned := PyNone; solver_after := s;
            printed := ["No satisfying assignments found."%string] |}.
Proof.
  intros H. unfold getMultipleRecipeModels, refinement, enough_fuel.
  cbn [while_loop]. rewrite H. split; reflexivity.
Qed.

(** C6 on the problem whose target is out of reach. *)
Lemma unsat_outcomes_witness :
  getMultipleRecipeModels (Stub.check Scenario.candidates)
    (Stub.model Scenario.candidates) Scenario.far_system 3
  = Some {| returned := []; solver_after := Scenario.far_system;
            printed := ["No recipes found."%string] |} /\
  refinement (Stub.check Scenario.candidates)
    (Stub.model Scenario.candidates) Scenario.far_system 3
  = Some {| returned := PyNone; solver_after := Scenario.far_system;
            printed := ["No satisfying assignments found."%string] |}.
Proof.
  apply (unsat_outcomes (Stub.check Scenario.candidates)
           (Stub.model Scenario.candidates) Scenario.far_system 3).
  vm_compute. reflexivity.
Defined.

(** C6 fails on the code: on a system the engine finds unsatisfiable,
    [refinement] returns [None], not an empty sequence. *)
Lemma refinement_unsat_counterexample :
  Stub.check Scenario.candidates Scenario.far_system = unsat /\
  option_map returned
    (refinement (Stub.check Scenario.candidates)
       (Stub.model Scenario.candidates) Scenario.far_system 3)
  = Some PyNone /\
  PyNone <> PyList [].
Proof. repeat split; [vm_compute; reflexivity..|discriminate]. Qed.

Lemma while_loop_unknown
    (z3_check : Solver -> CheckSatResult) (z3_model : Solver -> ModelRef)
    (fuel : nat) :
  forall (s : Solver) (ms : list ModelRef) (c max : Z),
    while_loop z3_check z3_model fuel s ms c max =
    while_loop (fun s => unknown_as_unsat (z3_check s)) z3_model
               fuel s ms c max.
Proof.
  induction fuel as [|fuel IH]; intros s ms c max; [reflexivity|].
  cbn [while_loop].
  replace (is_sat (unknown_as_unsat (z3_check s)))
    with (is_sat (z3_check s)) by (by destruct (z3_check s)).
  destruct (is_sat (z3_check s) && (c <? max)%Z); [apply IH|reflexivity].
Qed.

(** C7, as the code has it.  The loop condition only asks whether the
    answer is [sat], so an [unknown] ends the enumeration the way an
    [unsat] does: whatever the engine, each enumerator returns, prints and
    leaves in the solver exactly what it would with every [unknown] of the
    engine replaced by [unsat]. *)
Theorem unknown_is_read_as_unsat
    (z3_check : Solver -> CheckSatResult) (z3_model : Solver -> ModelRef)
    (s : Solver) (max_models : Z) :
  getMultipleRecipeModels z3_check z3_model s max_models
  = getMultipleRecipeModels (fun s => unknown_as_unsat (z3_check s))
      z3_model s max_models /\
  refinement z3_check z3_model s max_models
  = refinement (fun s => unknown_as_unsat (z3_check s))
      z3_model s max_models.
Proof.
  unfold getMultipleRecipeModels, refinement.
  by rewrite <- while_loop_unknown.
Qed.

(** C7 fails on the code: an engine that answers [unknown] and one that
    answers [unsat] on the same system lead to the same return value, the
    same printed line and the same solver, for both enumerators. *)
Lemma unknown_counterexample :
  Stub.gives_up Scenario.system = unknown /\
  Stub.check [] Scenario.system = unsat /\
  refinement Stub.gives_up (Stub.model []) Scenario.system 3
  = refinement (Stub.check []) (Stub.model []) Scenario.system 3 /\
  getMultipleRecipeModels Stub.gives_up (Stub.model []) Scenario.system 3
  = getMultipleRecipeModels (Stub.check []) (Stub.model [])
      Scenario.system 3.
Proof. repeat split; vm_compute; reflexivity. Qed.

(** C8, as the code has it.  Both enumerators return, and the solver the
    caller passed in then holds, after its original assertions, the
    blocking clause of every model found, in the order they were found. *)
Theorem blocking_clauses_stay
    (z3_check : Solver -> CheckSatResult) (z3_model : Solver -> ModelRef)
    (s : Solver) (max_models : Z) :
  (exists out,
     getMultipleRecipeModels z3_check z3_model s max_models = Some out /\
     solver_after out = s ++ map blocking (returned out)) /\
  (exists out,
     refinement z3_check z3_model s max_models = Some out /\
     solver_after out = s ++ map blocking (models_of (returned out))).
Proof.
  destruct (enumerators_run z3_check z3_model s max_models)
    as (s' & ms & Hrun).
  unfold getMultipleRecipeModels, refinement. rewrite Hrun.
  apply while_loop_spec in Hrun as (found & Hms & -> & _).
  cbn in Hms. subst found.
  split.
  - eexists. split; reflexivity.
  - destruct ms as [|m ms]; eexists; (split; [reflexivity|]); reflexivity.
Qed.

(** C8 fails on the code: after two models were found, the caller's solver
    holds two assertions more than before. *)
Lemma solver_mutated_counterexample :
  option_map solver_after
    (getMultipleRecipeModels (Stub.check Scenario.candidates)
       (Stub.model Scenario.candidates) Scenario.system 3)
  = Some (Scenario.system
          ++ [blocking Scenario.m1; blocking Scenario.m2]) /\
  option_map solver_after
    (refinement (Stub.check Scenario.candidates)
       (Stub.model Scenario.candidates) Scenario.system 3)
  = Some (Scenario.system
          ++ [blocking Scenario.m1; blocking Scenario.m2]) /\
  Scenario.system ++ [blocking Scenario.m1; blocking Scenario.m2]
  <> Scenario.system.
Proof.
  repeat split; [vm_compute; reflexivity..|].
  intros H. apply (f_equal length) in H. vm_compute in H. discriminate.
Qed.

Lemma coefficient_name_inj (a b : string) :
  "K_" +:+ a = "K_" +:+ b -> a = b.
Proof. intros H. injection H as H. exact H. Qed.

(** C9, as the code has it.  [with_coef] returns the constant named
    "K_" followed by the ingredient name, in whatever context it is
    called: two calls return the same constant exactly when the two
    profiles have the same name, and a call for a name the context
    already holds declares nothing new. *)
Theorem with_coef_keyed_by_name
    (p q : MacroTriple) (ctx1 ctx2 : Context) :
  returned_coefficient (with_coef p ctx1)
  = Some (RealConst ("K_" +:+ MacroTriple.name p)) /\
  (returned_coefficient (with_coef p ctx1)
   = returned_coefficient (with_coef q ctx2)
   <-> MacroTriple.name p = MacroTriple.name q) /\
  ("K_" +:+ MacroTriple.name p ∈ ctx1 -> (with_coef p ctx1).2 = ctx1).
Proof.
  rewrite !with_coef_run. cbn [returned_coefficient snd].
  split; [reflexivity|]. split.
  - unfold coefficient_of. split.
    + intros H. apply coefficient_name_inj. congruence.
    + intros Hname. by rewrite Hname.
  - intros Hin. apply subseteq_union_1_L. by apply singleton_subseteq_l.
Qed.

(** C9 fails on the code: after a first problem with an ingredient "A"
    was built, a second problem with another ingredient called "A" gets
    the constant of the first; its system constrains K_A again. *)
Lemma with_coef_namespacing_counterexample :
  recipeFormula [Scenario.A; Scenario.B] Scenario.target 1 10 ∅
  = (Ok Scenario.system, Scenario.declared) /\
  returned_coefficient (with_coef Scenario.A ∅)
  = Some (RealConst "K_A") /\
  returned_coefficient (with_coef Scenario.other_A Scenario.declared)
  = Some (RealConst "K_A") /\
  (with_coef Scenario.other_A Scenario.declared).2 = Scenario.declared /\
  (recipeFormula [Scenario.other_A] Scenario.other_target 1 10
     Scenario.declared).1
  = Ok [Gt (RealConst "K_A") (RealVal 1);
        Lt (RealConst "K_A") (RealVal 10);
        Eq (Mul (RealConst "K_A") (RealVal 0)) (RealVal 0);
        Eq (Mul (RealConst "K_A") (RealVal 3)) (RealVal 6);
        Eq (Mul (RealConst "K_A") (RealVal 0)) (RealVal 0)].
Proof. repeat split; vm_compute; reflexivity. Qed.

(** C10.  Every [with_coef] call and every unpacking of a profile
    returns the constant [coefficient_of] of that profile, whatever the
    context, and profiles of one name have one constant.  In the system
    [recipeFormula] returns for a non-empty list, that same constant is
    the one bounded for each ingredient, the one compared for each
    adjacent pair, and the one weighted in the three sums: under every
    model the left sides of the three equalities are the weighted sums of
    the coefficients' values. *)
Theorem one_coefficient_per_name
    (first : MacroTriple) (rest : list MacroTriple) (target : MacroTriple)
    (min_bound max_bound : Q) (ctx : Context) :
  (forall p ctx0,
     returned_coefficient (with_coef p ctx0) = Some (coefficient_of p) /\
     returned_coefficient (MacroTriple_iter p ctx0)
     = Some (coefficient_of p)) /\
  (forall p q,
     MacroTriple.name p = MacroTriple.name q ->
     coefficient_of p = coefficient_of q) /\
  exists s ctx' f_eq c_eq p_eq,
    recipeFormula (first :: rest) target min_bound max_bound ctx
    = (Ok s, ctx') /\
    (forall p, p ∈ first :: rest ->
       Gt (coefficient_of p) (RealVal min_bound) ∈ s /\
       Lt (coefficient_of p) (RealVal max_bound) ∈ s) /\
    (forall i p q,
       (first :: rest) !! i = Some p -> (first :: rest) !! S i = Some q ->
       Ge (coefficient_of p) (coefficient_of q) ∈ s) /\
    Eq f_eq (RealVal (MacroTriple.fat target)) ∈ s /\
    Eq c_eq (RealVal (MacroTriple.carbs target)) ∈ s /\
    Eq p_eq (RealVal (MacroTriple.protien target)) ∈ s /\
    (forall m,
       eval m f_eq == weighted_sum m MacroTriple.fat (first :: rest) /\
       eval m c_eq == weighted_sum m MacroTriple.carbs (first :: rest) /\
       eval m p_eq == weighted_sum m MacroTriple.protien (first :: rest)).
Proof.
  split; [|split].
  - intros p ctx0. split; reflexivity.
  - intros p q H. unfold coefficient_of. by rewrite H.
  - destruct (recipeFormula_run first rest target min_bound max_bound ctx)
      as [ctx' Hrun].
    eexists _, ctx', (linear_sum MacroTriple.fat (first :: rest)),
      (linear_sum MacroTriple.carbs (first :: rest)),
      (linear_sum MacroTriple.protien (first :: rest)).
    split; [exact Hrun|].
    split; [|split; [|split; [|split; [|split]]]].
    + intros p Hp.
      destruct (bound_constraints_elem min_bound max_bound _ _ Hp).
      rewrite !elem_of_app. auto.
    + intros i p q Hp Hq. rewrite !elem_of_app. right. left.
      by apply (order_constraints_elem _ i).
    + rewrite !elem_of_app. right. right.
      unfold target_constraints. set_solver.
    + rewrite !elem_of_app. right. right.
      unfold target_constraints. set_solver.
    + rewrite !elem_of_app. right. right.
      unfold target_constraints. set_solver.
    + intros m. repeat split; apply eval_linear_sum.
Qed.

(* ===================================================================== *)
(* Further properties of the enumerators                                 *)
(* ===================================================================== *)

Section LoopFacts.

Variable z3_check : Solver -> CheckSatResult.
Variable z3_model : Solver -> ModelRef.

Lemma enumerates_while_loop (s : Solver) (max : Z)
    (models : list ModelRef) (s' : Solver) :
  enumerates z3_check z3_model s max models s' <->
  while_loop z3_check z3_model (enough_fuel max) s [] 0 max
  = Some (s', models).
Proof.
  unfold enumerates, getMultipleRecipeModels, refinement. split.
  - intros [(out & H & <- & <-) _].
    destruct (while_loop _ _ _ _ _ _ _) as [[s1 ms]|]; [|discriminate].
    by injection H as <-.
  - intros ->. split.
    + eexists. repeat split.
    + destruct models as [|m ms]; eexists; repeat split.
Qed.

Lemma enumerates_total (s : Solver) (max : Z) :
  exists models s', enumerates z3_check z3_model s max models s'.
Proof.
  destruct (enumerators_run z3_check z3_model s max) as (s' & ms & H).
  exists ms, s'. by apply enumerates_while_loop.
Qed.

Lemma enumerates_spec (s : Solver) (max : Z)
    (models : list ModelRef) (s' : Solver) :
  enumerates z3_check z3_model s max models s' ->
  s' = s ++ map blocking models /\
  (Z.of_nat (length models) <= Z.max 0 max)%Z /\
  (forall k m, models !! k = Some m ->
     z3_check (solver_at s models k) = sat /\
     m = z3_model (solver_at s models k)) /\
  is_sat (z3_check s') && (Z.of_nat (length models) <? max)%Z = false.
Proof.
  intros H. apply enumerates_while_loop in H.
  apply while_loop_spec in H as (found & Hms & Hs & Hlen & Hk & Hstop).
  cbn in Hms. subst found. rewrite Z.sub_0_r in Hlen.
  rewrite Z.add_0_l in Hstop. auto.
Qed.

Lemma enumerates_emits (s : Solver) (max : Z)
    (models : list ModelRef) (s' : Solver) :
  enumerates z3_check z3_model s max models s' ->
  emits z3_check z3_model s max models.
Proof.
  intros [(o1 & H1 & E1 & _) (o2 & H2 & E2 & _)]. split; eauto.
Qed.

(** A loop that stops at its first test leaves everything as it was. *)
Lemma enumerates_nothing (s : Solver) (max : Z) :
  is_sat (z3_check s) && (0 <? max)%Z = false ->
  getMultipleRecipeModels z3_check z3_model s max
  = Some {| returned := []; solver_after := s;
            printed := ["No recipes found."%string] |} /\
  refinement z3_check z3_model s max
  = Some {| returned := PyNone; solver_after := s;
            printed := ["No satisfying assignments found."%string] |}.
Proof.
  intros H. unfold getMultipleRecipeModels, refinement, enough_fuel.
  cbn [while_loop]. rewrite H. split; reflexivity.
Qed.

End LoopFacts.

Lemma blocked_iff_agrees (m m' : ModelRef) :
  holds m' (blocking m) = false <-> agrees_on_decls m m'.
Proof.
  unfold agrees_on_decls. split.
  - intros H d v Hv. destruct (Qeq_dec (model_get m' d) v) as [E|E]; [done|].
    assert (holds m' (blocking m) = true) by (apply holds_blocking; eauto).
    congruence.
  - intros H. destruct (holds m' (blocking m)) eqn:E; [|reflexivity].
    apply holds_blocking in E as (d & v & Hv & Hne).
    exfalso. apply Hne. by apply H.
Qed.

Lemma forallb_false_elem {A : Type} (f : A -> bool) (l : list A) :
  forallb f l = false -> exists x, x ∈ l /\ f x = false.
Proof.
  induction l as [|a l IH]; cbn; [discriminate|].
  destruct (f a) eqn:E; cbn.
  - intros H. destruct (IH H) as (x & Hx & Hf). exists x.
    split; [by apply list_elem_of_further|exact Hf].
  - intros _. exists a. split; [apply list_elem_of_here|exact E].
Qed.

Lemma satisfies_all_blocked (m : ModelRef) (s : Solver)
    (models : list ModelRef) :
  satisfies_all m (s ++ map blocking models) <->
  satisfies_all m s /\
  forall m', m' ∈ models -> ~ agrees_on_decls m' m.
Proof.
  unfold satisfies_all. rewrite forallb_app, andb_true_iff.
  apply and_iff_compat_l. rewrite forallb_forall. split.
  - intros H m' Hm' Hagree. apply blocked_iff_agrees in Hagree.
    rewrite H in Hagree; [discriminate|].
    by apply in_map, list_elem_of_In.
  - intros H c Hc. apply in_map_iff in Hc as (m' & <- & Hm').
    apply list_elem_of_In in Hm'.
    destruct (holds m (blocking m')) eqn:E; [reflexivity|].
    apply blocked_iff_agrees in E. by apply H in E.
Qed.

(** X1.  Whatever the engine, the system and [max_models], both
    enumerators return, and they return no more than [max_models] models
    (none when [max_models] is negative). *)
Theorem enumeration_bounded_by_max
    (z3_check : Solver -> CheckSatResult) (z3_model : Solver -> ModelRef)
    (s : Solver) (max_models : Z) :
  exists models s',
    enumerates z3_check z3_model s max_models models s' /\
    (Z.of_nat (length models) <= Z.max 0 max_models)%Z.
Proof.
  destruct (enumerates_total z3_check z3_model s max_models)
    as (models & s' & H).
  exists models, s'. split; [exact H|].
  by apply enumerates_spec in H as (_ & Hlen & _).
Qed.

(** X2.  With [max_models] zero or negative nothing is enumerated, even
    on a system the engine can satisfy: the solver is left as it was,
    [getMultipleRecipeModels] returns the empty list, [refinement] returns
    [None], and each prints its "nothing found" line. *)
Theorem nonpositive_max_finds_nothing
    (z3_check : Solver -> CheckSatResult) (z3_model : Solver -> ModelRef)
    (s : Solver) (max_models : Z) :
  (max_models <= 0)%Z ->
  getMultipleRecipeModels z3_check z3_model s max_models
  = Some {| returned := []; solver_after := s;
            printed := ["No recipes found."%string] |} /\
  refinement z3_check z3_model s max_models
  = Some {| returned := PyNone; solver_after := s;
            printed := ["No satisfying assignments found."%string] |}.
Proof.
  intros H. apply enumerates_nothing.
  destruct (Z.ltb_spec 0 max_models); [lia|]. apply andb_false_r.
Qed.

(** X2 on a system that has solutions. *)
Lemma nonpositive_max_finds_nothing_witness :
  Stub.check Scenario.candidates Scenario.system = sat /\
  getMultipleRecipeModels (Stub.check Scenario.candidates)
    (Stub.model Scenario.candidates) Scenario.system 0
  = Some {| returned := []; solver_after := Scenario.system;
            printed := ["No recipes found."%string] |} /\
  refinement (Stub.check Scenario.candidates)
    (Stub.model Scenario.candidates) Scenario.system 0
  = Some {| returned := PyNone; solver_after := Scenario.system;
            printed := ["No satisfying assignments found."%string] |}.
Proof.
  split; [vm_compute; reflexivity|].
  apply (nonpositive_max_finds_nothing (Stub.check Scenario.candidates)
           (Stub.model Scenario.candidates) Scenario.system 0).
  lia.
Defined.

(** X3.  The enumeration ends for one of two reasons only: [max_models]
    models were found, or the engine's answer on the solver left behind
    is not [sat]. *)
Theorem enumeration_stops_for_a_reason
    (z3_check : Solver -> CheckSatResult) (z3_model : Solver -> ModelRef)
    (s : Solver) (max_models : Z) :
  exists models s',
    enumerates z3_check z3_model s max_models models s' /\
    ((max_models <= Z.of_nat (length models))%Z \/
     is_sat (z3_check s') = false).
Proof.
  destruct (enumerates_total z3_check z3_model s max_models)
    as (models & s' & H).
  exists models, s'. split; [exact H|].
  apply enumerates_spec in H as (_ & _ & _ & Hstop).
  apply andb_false_iff in Hstop as [Hstop|Hstop]; [by right|left].
  by apply Z.ltb_ge.
Qed.

(** X4.  The models come in discovery order: the [k]-th one is the model
    the engine gave, after answering [sat], for the system passed in
    extended with the blocking clauses of the [k] models before it. *)
Theorem models_in_discovery_order
    (z3_check : Solver -> CheckSatResult) (z3_model : Solver -> ModelRef)
    (s : Solver) (max_models : Z) :
  exists models s',
    enumerates z3_check z3_model s max_models models s' /\
    forall (k : nat) (m : ModelRef),
      models !! k = Some m ->
      z3_check (s ++ map blocking (take k models)) = sat /\
      m = z3_model (s ++ map blocking (take k models)).
Proof.
  destruct (enumerates_total z3_check z3_model s max_models)
    as (models & s' & H).
  exists models, s'. split; [exact H|].
  by apply enumerates_spec in H as (_ & _ & Hk & _).
Qed.

(** X5.  What is left in the caller's solver: a model satisfies the solver
    after the enumeration exactly when it satisfies the system passed in
    and, for every model returned, differs from it on some constant that
    model assigns. *)
Theorem remaining_solutions
    (z3_check : Solver -> CheckSatResult) (z3_model : Solver -> ModelRef)
    (s : Solver) (max_models : Z) :
  exists models s',
    enumerates z3_check z3_model s max_models models s' /\
    forall m : ModelRef,
      satisfies_all m s' <->
      satisfies_all m s /\
      forall m', m' ∈ models -> ~ agrees_on_decls m' m.
Proof.
  destruct (enumerates_total z3_check z3_model s max_models)
    as (models & s' & H).
  exists models, s'. split; [exact H|].
  apply enumerates_spec in H as (-> & _). intros m.
  apply satisfies_all_blocked.
Qed.

(** X6.  When the solver left behind has no model at all (what a correct
    [unsat] means), the enumeration was exhaustive: every model of the
    system passed in gives the constants of some returned model the
    values that model gives them. *)
Theorem enumeration_exhaustive
    (z3_check : Solver -> CheckSatResult) (z3_model : Solver -> ModelRef)
    (s : Solver) (max_models : Z) (models : list ModelRef) (s' : Solver) :
  enumerates z3_check z3_model s max_models models s' ->
  (forall m, ~ satisfies_all m s') ->
  forall m : ModelRef,
    satisfies_all m s ->
    exists m', m' ∈ models /\ agrees_on_decls m' m.
Proof.
  intros H Hnone m Hm. apply enumerates_spec in H as (-> & _).
  destruct (forallb (fun m' => holds m (blocking m')) models) eqn:E.
  - exfalso. apply (Hnone m). apply satisfies_all_blocked.
    split; [exact Hm|]. intros m' Hm' Hagree.
    apply blocked_iff_agrees in Hagree.
    rewrite forallb_forall in E.
    rewrite E in Hagree; [discriminate|]. by apply list_elem_of_In.
  - apply forallb_false_elem in E as (m' & Hm' & Hb).
    exists m'. split; [exact Hm'|]. by apply blocked_iff_agrees.
Qed.

Lemma Unique_enumerates :
  enumerates (Stub.check Unique.candidates) (Stub.model Unique.candidates)
    Unique.system 3 [Unique.solution]
    (Unique.system ++ [blocking Unique.solution]).
Proof. apply enumerates_while_loop. vm_compute. reflexivity. Qed.

(** Once K_A = 2, K_B = 2 is blocked, the scenario has no solution. *)
Lemma Unique_exhausted (m : ModelRef) :
  ~ satisfies_all m (Unique.system ++ [blocking Unique.solution]).
Proof.
  unfold satisfies_all. intros H. rewrite forallb_forall in H.
  assert (Hfat : holds m (Eq (Add (Mul (RealConst "K_A") (RealVal 1))
                                  (Mul (RealConst "K_B") (RealVal 0)))
                             (RealVal 2)) = true).
  { apply H. vm_compute. tauto. }
  assert (Hcarbs : holds m (Eq (Add (Mul (RealConst "K_A") (RealVal 0))
                                    (Mul (RealConst "K_B") (RealVal 1)))
                               (RealVal 2)) = true).
  { apply H. vm_compute. tauto. }
  assert (Hblock : holds m (Or [Ne (RealConst "K_A") (RealVal 2);
                                Ne (RealConst "K_B") (RealVal 2)]) = true).
  { apply H. vm_compute. tauto. }
  cbn [holds eval existsb] in Hfat, Hcarbs, Hblock.
  apply Qeq_bool_iff in Hfat, Hcarbs.
  assert (EA : model_get m "K_A" == 2) by lra.
  assert (EB : model_get m "K_B" == 2) by lra.
  apply Qeq_bool_iff in EA, EB. rewrite EA, EB in Hblock. discriminate.
Qed.

(** X6 on the specification's scenario: every solution has K_A = 2 and
    K_B = 2, the one model returned. *)
Lemma enumeration_exhaustive_witness :
  enumerates (Stub.check Unique.candidates) (Stub.model Unique.candidates)
    Unique.system 3 [Unique.solution]
    (Unique.system ++ [blocking Unique.solution]) /\
  forall m : ModelRef,
    satisfies_all m Unique.system ->
    exists m', m' ∈ [Unique.solution] /\ agrees_on_decls m' m.
Proof.
  split; [exact Unique_enumerates|].
  exact (enumeration_exhaustive
           (Stub.check Unique.candidates) (Stub.model Unique.candidates)
           Unique.system 3 [Unique.solution]
           (Unique.system ++ [blocking Unique.solution])
           Unique_enumerates Unique_exhausted).
Defined.

(** X7.  A second call on the same solver object continues the
    enumeration.  Let the engine answer as it likes in the first call and
    be sound in the second: both calls return, the solver ends up with the
    assertions passed in followed by the blocking clauses of the first
    call's models and then of the second's, and every model of the second
    call gives some constant assigned by any model of the first a value
    other than that model's. *)
Theorem resumed_enumeration_finds_new_models
    (check1 : Solver -> CheckSatResult) (model1 : Solver -> ModelRef)
    (check2 : Solver -> CheckSatResult) (model2 : Solver -> ModelRef)
    (sound2 : forall s : Solver,
        check2 s = sat -> forallb (holds (model2 s)) s = true)
    (s : Solver) (a b : Z) :
  exists first s1 second s2,
    enumerates check1 model1 s a first s1 /\
    enumerates check2 model2 s1 b second s2 /\
    s2 = s ++ map blocking (first ++ second) /\
    forall m1 m2 : ModelRef,
      m1 ∈ first -> m2 ∈ second ->
      exists d v, m1 !! d = Some v /\ ~ model_get m2 d == v.
Proof.
  destruct (enumerates_total check1 model1 s a) as (first & s1 & H1).
  destruct (enumerates_total check2 model2 s1 b) as (second & s2 & H2).
  exists first, s1, second, s2. split; [exact H1|]. split; [exact H2|].
  pose proof (enumerates_spec _ _ _ _ _ _ H1) as (Hs1 & _).
  pose proof (enumerates_spec _ _ _ _ _ _ H2) as (Hs2 & _).
  split.
  - rewrite Hs2, Hs1, map_app. by rewrite <- app_assoc.
  - intros m1 m2 Hm1 Hm2. apply holds_blocking.
    apply (emitted_model_satisfies _ _ sound2 s1 b second m2).
    + by apply (enumerates_emits _ _ _ _ _ s2).
    + exact Hm2.
    + rewrite Hs1. apply elem_of_app. right.
      by apply list_elem_of_In, in_map, list_elem_of_In.
Qed.

(** X7 with one model asked for, then one more. *)
Lemma resumed_enumeration_finds_new_models_witness :
  exists first s1 second s2,
    enumerates (Stub.check Scenario.candidates)
      (Stub.model Scenario.candidates) Scenario.system 1 first s1 /\
    enumerates (Stub.check Scenario.candidates)
      (Stub.model Scenario.candidates) s1 1 second s2 /\
    s2 = Scenario.system ++ map blocking (first ++ second) /\
    forall m1 m2 : ModelRef,
      m1 ∈ first -> m2 ∈ second ->
      exists d v, m1 !! d = Some v /\ ~ model_get m2 d == v.
Proof.
  exact (resumed_enumeration_finds_new_models
           (Stub.check Scenario.candidates) (Stub.model Scenario.candidates)
           (Stub.check Scenario.candidates) (Stub.model Scenario.candidates)
           (Stub_sound Scenario.candidates) Scenario.system 1 1).
Defined.

(** X8.  The blocking clause of a model [m] rejects exactly the models
    that give every constant [m] assigns the value [m] gives it: [m]
    itself, every model that only assigns more constants, and nothing
    that differs from [m] on one of its constants. *)
Theorem blocking_excludes_exactly (m m' : ModelRef) :
  (holds m' (blocking m) = false <-> agrees_on_decls m m') /\
  holds m (blocking m) = false /\
  (m ⊆ m' -> holds m' (blocking m) = false).
Proof.
  split; [apply blocked_iff_agrees|]. split.
  - apply blocked_iff_agrees. intros d v Hv.
    by rewrite (model_get_Some _ _ _ Hv).
  - intros Hsub. apply blocked_iff_agrees. intros d v Hv.
    rewrite (model_get_Some m' d v); [reflexivity|].
    by apply (lookup_weaken m).
Qed.

(* ===================================================================== *)
(* Further properties of recipeFormula                                   *)
(* ===================================================================== *)

Lemma satisfies_bound_constraints (m : ModelRef) (lo hi : Q)
    (ings : list MacroTriple) :
  forallb (holds m) (bound_constraints lo hi ings) = true <->
  forall p, p ∈ ings ->
    lo < coefficient_value m p /\ coefficient_value m p < hi.
Proof.
  unfold bound_constraints. induction ings as [|a ings IH].
  - cbn. split; [|done]. intros _ p Hp. by apply elem_of_nil in Hp.
  - cbn [flat_map app forallb holds eval coefficient_of].
    rewrite !andb_true_iff, !Qlt_bool_iff, IH. split.
    + intros (Hlo & Hhi & Hrest) p Hp.
      apply elem_of_cons in Hp as [->|Hp]; [done|by apply Hrest].
    + intros H. split; [|split].
      * apply (H a), list_elem_of_here.
      * apply (H a), list_elem_of_here.
      * intros p Hp. by apply H, list_elem_of_further.
Qed.

Lemma satisfies_order_constraints (m : ModelRef)
    (ings : list MacroTriple) :
  forallb (holds m) (order_constraints ings) = true <->
  forall i p q,
    ings !! i = Some p -> ings !! S i = Some q ->
    coefficient_value m q <= coefficient_value m p.
Proof.
  unfold order_constraints. induction ings as [|a ings IH].
  - cbn. split; [|done]. intros _ i p q Hp. discriminate.
  - destruct ings as [|b ings].
    + cbn. split; [|done]. intros _ i p q _ Hq. discriminate.
    + cbn [pairwise map forallb holds eval coefficient_of fst snd].
      cbn [pairwise] in IH.
      rewrite andb_true_iff, Qle_bool_iff, IH. split.
      * intros [Hab Hrest] i p q Hp Hq. destruct i as [|i].
        -- cbn in Hp, Hq. by injection Hp as <-; injection Hq as <-.
        -- by apply (Hrest i).
      * intros H. split; [by apply (H 0%nat)|].
        intros i p q Hp Hq. by apply (H (S i)).
Qed.

(** The models of the system [recipeFormula] builds, in the words of the
    problem. *)
Lemma satisfies_system (m : ModelRef) (lo hi : Q)
    (ings : list MacroTriple) (target : MacroTriple) :
  satisfies_all m (bound_constraints lo hi ings
                   ++ order_constraints ings
                   ++ target_constraints ings target) <->
  (forall p, p ∈ ings ->
     lo < coefficient_value m p /\ coefficient_value m p < hi) /\
  (forall i p q,
     ings !! i = Some p -> ings !! S i = Some q ->
     coefficient_value m q <= coefficient_value m p) /\
  weighted_sum m MacroTriple.fat ings == MacroTriple.fat target /\
  weighted_sum m MacroTriple.carbs ings == MacroTriple.carbs target /\
  weighted_sum m MacroTriple.protien ings == MacroTriple.protien target.
Proof.
  unfold satisfies_all.
  rewrite !forallb_app, !andb_true_iff, satisfies_bound_constraints,
    satisfies_order_constraints.
  apply and_iff_compat_l, and_iff_compat_l.
  unfold target_constraints. cbn [forallb holds eval].
  rewrite !andb_true_iff, !Qeq_bool_iff, !eval_linear_sum. tauto.
Qed.

Lemma non_increasing_lookup {A : Type} (g : A -> Q) (l : list A) :
  (forall i p q, l !! i = Some p -> l !! S i = Some q -> g q <= g p) ->
  forall i j p q,
    (i <= j)%nat -> l !! i = Some p -> l !! j = Some q -> g q <= g p.
Proof.
  intros Hadj i j. induction j as [|j IH]; intros p q Hij Hp Hq.
  - assert (i = 0%nat) as -> by lia.
    rewrite Hp in Hq. injection Hq as <-. apply Qle_refl.
  - destruct (decide (i = S j)) as [->|Hne].
    + rewrite Hp in Hq. injection Hq as <-. apply Qle_refl.
    + destruct (l !! j) as [r|] eqn:Hr.
      * apply Qle_trans with (g r).
        -- by apply (Hadj j).
        -- apply IH; [lia|exact Hp|reflexivity].
      * apply lookup_ge_None in Hr. apply lookup_lt_Some in Hq. lia.
Qed.

Lemma weighted_sum_envelope (m : ModelRef) (f : MacroTriple -> Q)
    (lo hi : Q) (ings : list MacroTriple) :
  (forall p, p ∈ ings ->
     lo < coefficient_value m p /\ coefficient_value m p < hi) ->
  (forall p, p ∈ ings -> 0 <= f p) ->
  lo * total_density f ings <= weighted_sum m f ings /\
  weighted_sum m f ings <= hi * total_density f ings.
Proof.
  unfold total_density, weighted_sum.
  induction ings as [|a ings IH]; intros Hb Hf; cbn [foldr].
  - split; lra.
  - destruct IH as [IHlo IHhi].
    + intros p Hp. by apply Hb, list_elem_of_further.
    + intros p Hp. by apply Hf, list_elem_of_further.
    + destruct (Hb a (list_elem_of_here _ _)) as [Hlo Hhi].
      pose proof (Hf a (list_elem_of_here _ _)) as Hfa.
      assert (lo * f a <= coefficient_value m a * f a)
        by (apply Qmult_le_compat_r; [by apply Qlt_le_weak|exact Hfa]).
      assert (coefficient_value m a * f a <= hi * f a)
        by (apply Qmult_le_compat_r; [by apply Qlt_le_weak|exact Hfa]).
      split; lra.
Qed.

Section SoundEngineFurther.

Variable z3_check : Solver -> CheckSatResult.
Variable z3_model : Solver -> ModelRef.
Hypothesis z3_sound :
  forall s : Solver,
    z3_check s = sat -> forallb (holds (z3_model s)) s = true.

Lemma emitted_model_satisfies_all (s : Solver) (max : Z)
    (models : list ModelRef) (m : ModelRef) :
  emits z3_check z3_model s max models ->
  m ∈ models -> satisfies_all m s.
Proof.
  intros He Hm. unfold satisfies_all. apply forallb_forall. intros c Hc.
  apply (emitted_model_satisfies _ _ z3_sound _ _ _ _ _ He Hm).
  by apply list_elem_of_In.
Qed.

(** A sound engine does not answer [sat] on a system without models. *)
Lemma no_model_not_sat (s : Solver) :
  (forall m, ~ satisfies_all m s) -> is_sat (z3_check s) = false.
Proof.
  intros H. destruct (z3_check s) eqn:E; try reflexivity.
  exfalso. apply (H (z3_model s)). by apply z3_sound.
Qed.

End SoundEngineFurther.

(** X10.  The system [recipeFormula] builds for a non-empty list says
    what the problem says and nothing more: a model satisfies it exactly
    when every coefficient is strictly between the bounds, the
    coefficients of adjacent ingredients do not increase, and the three
    weighted sums equal the target's values. *)
Theorem system_models_are_recipes
    (first : MacroTriple) (rest : list MacroTriple) (target : MacroTriple)
    (min_bound max_bound : Q) (ctx : Context) :
  exists s ctx',
    recipeFormula (first :: rest) target min_bound max_bound ctx
    = (Ok s, ctx') /\
    forall m : ModelRef,
      satisfies_all m s <->
      (forall p, p ∈ first :: rest ->
         min_bound < coefficient_value m p /\
         coefficient_value m p < max_bound) /\
      (forall i p q,
         (first :: rest) !! i = Some p ->
         (first :: rest) !! S i = Some q ->
         coefficient_value m q <= coefficient_value m p) /\
      weighted_sum m MacroTriple.fat (first :: rest)
        == MacroTriple.fat target /\
      weighted_sum m MacroTriple.carbs (first :: rest)
        == MacroTriple.carbs target /\
      weighted_sum m MacroTriple.protien (first :: rest)
        == MacroTriple.protien target.
Proof.
  destruct (recipeFormula_run first rest target min_bound max_bound ctx)
    as [ctx' Hrun].
  eexists _, ctx'. split; [exact Hrun|].
  intros m. apply satisfies_system.
Qed.

(** X11.  With a sound engine, in every model returned for a system
    built by [recipeFormula] the coefficients do not increase along the
    whole ingredient list, not only between neighbours: an ingredient
    never has a larger coefficient than one listed before it. *)
Theorem coefficients_non_increasing
    (z3_check : Solver -> CheckSatResult) (z3_model : Solver -> ModelRef)
    (z3_sound : forall s : Solver,
        z3_check s = sat -> forallb (holds (z3_model s)) s = true)
    (ingredients : list MacroTriple) (target : MacroTriple)
    (min_bound max_bound : Q) (ctx ctx' : Context) (s : Solver)
    (max_models : Z) :
  recipeFormula ingredients target min_bound max_bound ctx = (Ok s, ctx') ->
  exists models,
    emits z3_check z3_model s max_models models /\
    forall m : ModelRef,
      m ∈ models ->
      forall i j p q,
        (i <= j)%nat ->
        ingredients !! i = Some p -> ingredients !! j = Some q ->
        coefficient_value m q <= coefficient_value m p.
Proof.
  intros Hbuild.
  destruct (emits_total z3_check z3_model s max_models) as [models He].
  exists models. split; [exact He|]. intros m Hm.
  pose proof (emitted_model_satisfies_all _ _ z3_sound _ _ _ _ He Hm)
    as Hsat.
  apply recipeFormula_Ok in Hbuild. subst s.
  apply satisfies_system in Hsat as (_ & Hadj & _).
  by apply (non_increasing_lookup (coefficient_value m)).
Qed.

(** X11 on the two-ingredient problem, with the stand-in engine. *)
Lemma coefficients_non_increasing_witness :
  exists models,
    emits (Stub.check Scenario.candidates) (Stub.model Scenario.candidates)
          Scenario.system 3 models /\
    forall m : ModelRef,
      m ∈ models ->
      forall i j p q,
        (i <= j)%nat ->
        [Scenario.A; Scenario.B] !! i = Some p ->
        [Scenario.A; Scenario.B] !! j = Some q ->
        coefficient_value m q <= coefficient_value m p.
Proof.
  apply (coefficients_non_increasing
           (Stub.check Scenario.candidates) (Stub.model Scenario.candidates)
           (Stub_sound Scenario.candidates)
           [Scenario.A; Scenario.B] Scenario.target 1 10 ∅ Scenario.declared
           Scenario.system 3).
  vm_compute. reflexivity.
Defined.

(** X12.  Bounds that leave no room ([max_bound <= min_bound]) are not
    refused: the system built has no model, so with a sound engine both
    enumerators find nothing and leave the solver as it was. *)
Theorem crossed_bounds_give_no_recipe
    (z3_check : Solver -> CheckSatResult) (z3_model : Solver -> ModelRef)
    (z3_sound : forall s : Solver,
        z3_check s = sat -> forallb (holds (z3_model s)) s = true)
    (ingredients : list MacroTriple) (target : MacroTriple)
    (min_bound max_bound : Q) (ctx ctx' : Context) (s : Solver)
    (max_models : Z) :
  max_bound <= min_bound ->
  recipeFormula ingredients target min_bound max_bound ctx = (Ok s, ctx') ->
  (forall m, ~ satisfies_all m s) /\
  getMultipleRecipeModels z3_check z3_model s max_models
  = Some {| returned := []; solver_after := s;
            printed := ["No recipes found."%string] |} /\
  refinement z3_check z3_model s max_models
  = Some {| returned := PyNone; solver_after := s;
            printed := ["No satisfying assignments found."%string] |}.
Proof.
  intros Hcross Hbuild.
  assert (Hnone : forall m, ~ satisfies_all m s).
  { intros m Hsat. destruct ingredients as [|first rest]; [discriminate|].
    apply recipeFormula_Ok in Hbuild. subst s.
    apply satisfies_system in Hsat as (Hb & _).
    destruct (Hb first (list_elem_of_here _ _)) as [Hlo Hhi]. lra. }
  split; [exact Hnone|]. apply enumerates_nothing.
  by rewrite (no_model_not_sat _ _ z3_sound).
Qed.

(** X12 with [min_bound = 5] and [max_bound = 3]. *)
Lemma crossed_bounds_give_no_recipe_witness :
  (forall m, ~ satisfies_all m
     (Scenario.built
        (recipeFormula [Scenario.A; Scenario.B] Scenario.target 5 3 ∅))) /\
  getMultipleRecipeModels (Stub.check Scenario.candidates)
    (Stub.model Scenario.candidates)
    (Scenario.built
       (recipeFormula [Scenario.A; Scenario.B] Scenario.target 5 3 ∅)) 3
  = Some {| returned := [];
            solver_after :=
              Scenario.built
                (recipeFormula [Scenario.A; Scenario.B]
                   Scenario.target 5 3 ∅);
            printed := ["No recipes found."%string] |} /\
  refinement (Stub.check Scenario.candidates)
    (Stub.model Scenario.candidates)
    (Scenario.built
       (recipeFormula [Scenario.A; Scenario.B] Scenario.target 5 3 ∅)) 3
  = Some {| returned := PyNone;
            solver_after :=
              Scenario.built
                (recipeFormula [Scenario.A; Scenario.B]
                   Scenario.target 5 3 ∅);
            printed := ["No satisfying assignments found."%string] |}.
Proof.
  apply (crossed_bounds_give_no_recipe
           (Stub.check Scenario.candidates) (Stub.model Scenario.candidates)
           (Stub_sound Scenario.candidates)
           [Scenario.A; Scenario.B] Scenario.target 5 3 ∅ Scenario.declared).
  - lra.
  - vm_compute. reflexivity.
Defined.

(** X13.  With a sound engine and non-negative densities, a recipe can
    only exist when each target value lies between [min_bound] and
    [max_bound] times the summed density of the ingredients: whenever a
    model is returned, the target is inside that envelope. *)
Theorem target_within_envelope
    (z3_check : Solver -> CheckSatResult) (z3_model : Solver -> ModelRef)
    (z3_sound : forall s : Solver,
        z3_check s = sat -> forallb (holds (z3_model s)) s = true)
    (ingredients : list MacroTriple) (target : MacroTriple)
    (min_bound max_bound : Q) (ctx ctx' : Context) (s : Solver)
    (max_models : Z) :
  recipeFormula ingredients target min_bound max_bound ctx = (Ok s, ctx') ->
  (forall p, p ∈ ingredients ->
     0 <= MacroTriple.fat p /\ 0 <= MacroTriple.carbs p /\
     0 <= MacroTriple.protien p) ->
  exists models,
    emits z3_check z3_model s max_models models /\
    (models <> [] ->
     (min_bound * total_density MacroTriple.fat ingredients
        <= MacroTriple.fat target /\
      MacroTriple.fat target
        <= max_bound * total_density MacroTriple.fat ingredients) /\
     (min_bound * total_density MacroTriple.carbs ingredients
        <= MacroTriple.carbs target /\
      MacroTriple.carbs target
        <= max_bound * total_density MacroTriple.carbs ingredients) /\
     (min_bound * total_density MacroTriple.protien ingredients
        <= MacroTriple.protien target /\
      MacroTriple.protien target
        <= max_bound * total_density MacroTriple.protien ingredients)).
Proof.
  intros Hbuild Hpos.
  destruct (emits_total z3_check z3_model s max_models) as [models He].
  exists models. split; [exact He|]. intros Hne.
  destruct models as [|m models]; [done|].
  pose proof (emitted_model_satisfies_all _ _ z3_sound _ _ _ _ He
                (list_elem_of_here _ _)) as Hsat.
  apply recipeFormula_Ok in Hbuild. subst s.
  apply satisfies_system in Hsat as (Hb & _ & Hf & Hc & Hp).
  rewrite <- Hf, <- Hc, <- Hp.
  repeat split;
    apply (weighted_sum_envelope m _ min_bound max_bound ingredients Hb);
    intros p Hin; by destruct (Hpos p Hin) as (? & ? & ?).
Qed.

(** X13 on the two-ingredient problem, with the stand-in engine. *)
Lemma target_within_envelope_witness :
  exists models,
    emits (Stub.check Scenario.candidates) (Stub.model Scenario.candidates)
          Scenario.system 3 models /\
    (models <> [] ->
     (1 * total_density MacroTriple.fat [Scenario.A; Scenario.B]
        <= MacroTriple.fat Scenario.target /\
      MacroTriple.fat Scenario.target
        <= 10 * total_density MacroTriple.fat [Scenario.A; Scenario.B]) /\
     (1 * total_density MacroTriple.carbs [Scenario.A; Scenario.B]
        <= MacroTriple.carbs Scenario.target /\
      MacroTriple.carbs Scenario.target
        <= 10 * total_density MacroTriple.carbs [Scenario.A; Scenario.B]) /\
     (1 * total_density MacroTriple.protien [Scenario.A; Scenario.B]
        <= MacroTriple.protien Scenario.target /\
      MacroTriple.protien Scenario.target
        <= 10 * total_density MacroTriple.protien
                  [Scenario.A; Scenario.B])).
Proof.
  apply (target_within_envelope
           (Stub.check Scenario.candidates) (Stub.model Scenario.candidates)
           (Stub_sound Scenario.candidates)
           [Scenario.A; Scenario.B] Scenario.target 1 10 ∅ Scenario.declared
           Scenario.system 3).
  - vm_compute. reflexivity.
  - intros p Hp. apply elem_of_cons in Hp as [->|Hp].
    + repeat split; discriminate.
    + apply list_elem_of_singleton in Hp as ->. repeat split; discriminate.
Defined.

(* set_solver clears hypotheses by name and warns when one is absent. *)
Local Set Warnings "-clear-no-such-hyp".

Lemma rest_loop_ctx (lo hi : Q) (rest : list MacroTriple) :
  forall (st : Solver * ArithRef * ArithRef * ArithRef) (ctx : Context),
    (rest_loop rest lo hi st ctx).2 = coefficient_names rest ∪ ctx.
Proof.
  unfold coefficient_names.
  induction rest as [|q rest IH]; intros [[[s f] c] p] ctx.
  - cbn. set_solver.
  - cbn [rest_loop]. unfold bind at 1.
    rewrite MacroTriple_iter_run, with_coef_run, IH. set_solver.
Qed.

Lemma pair_loop_ctx (pairs : list (MacroTriple * MacroTriple)) :
  forall (s : Solver) (ctx : Context),
    (pair_loop pairs s ctx).2
    = coefficient_names (pairs.*1) ∪ coefficient_names (pairs.*2) ∪ ctx.
Proof.
  unfold coefficient_names.
  induction pairs as [|[p q] pairs IH]; intros s ctx.
  - cbn. set_solver.
  - cbn [pair_loop]. unfold bind at 1.
    rewrite MacroTriple_iter_run, with_coef_run. unfold bind at 1.
    rewrite MacroTriple_iter_run, with_coef_run, IH. set_solver.
Qed.

Lemma pairwise_elem {A : Type} (l : list A) (p q : A) :
  (p, q) ∈ pairwise l -> p ∈ l /\ q ∈ l.
Proof.
  induction l as [|a l IH]; [by intros H%elem_of_nil|].
  destruct l as [|b l]; [by intros H%elem_of_nil|].
  cbn [pairwise]. intros H. apply elem_of_cons in H as [H|H].
  - injection H as -> ->. split; set_solver.
  - destruct (IH H). split; set_solver.
Qed.

Lemma pairwise_names_subseteq (ings : list MacroTriple) :
  coefficient_names ((pairwise ings).*1)
  ∪ coefficient_names ((pairwise ings).*2) ⊆ coefficient_names ings.
Proof.
  unfold coefficient_names. intros x Hx.
  apply elem_of_list_to_set, list_elem_of_In, in_map_iff.
  apply elem_of_union in Hx as [Hx|Hx];
    apply elem_of_list_to_set, list_elem_of_In, in_map_iff in Hx
      as (p & <- & Hp);
    apply list_elem_of_In, list_elem_of_fmap in Hp as ([a b] & -> & Hab);
    apply pairwise_elem in Hab as [Ha Hb];
    eexists; (split; [reflexivity|]); by apply list_elem_of_In.
Qed.

(** X14.  For a non-empty ingredient list, [recipeFormula] leaves in
    the z3 context what was there before plus the constants K_<name> of
    the ingredients, and nothing else: no constant is declared for the
    target, and none twice. *)
Theorem recipeFormula_declares
    (first : MacroTriple) (rest : list MacroTriple) (target : MacroTriple)
    (min_bound max_bound : Q) (ctx : Context) :
  (recipeFormula (first :: rest) target min_bound max_bound ctx).2
  = coefficient_names (first :: rest) ∪ ctx.
Proof.
  unfold recipeFormula. cbn [getitem0 drop]. unfold bind at 1, ret at 1.
  unfold bind at 1. rewrite MacroTriple_iter_run, with_coef_run.
  unfold bind at 1.
  match goal with
  | |- context [rest_loop ?r ?lo ?hi (?s, ?f, ?c, ?p) ?cx] =>
    destruct (rest_loop_run lo hi r s f c p cx) as [ctx1 Hrest];
    pose proof (rest_loop_ctx lo hi r (s, f, c, p) cx) as Hctx1
  end.
  rewrite Hrest in Hctx1 |- *. cbn [snd] in Hctx1. subst ctx1.
  unfold bind at 1.
  match goal with
  | |- context [pair_loop ?ps ?s ?cx] =>
    destruct (pair_loop_run ps s cx) as [ctx2 Hpair];
    pose proof (pair_loop_ctx ps s cx) as Hctx2
  end.
  rewrite Hpair in Hctx2 |- *. cbn [snd] in Hctx2. subst ctx2.
  cbn [ret snd].
  pose proof (pairwise_names_subseteq (first :: rest)) as Hsub.
  unfold coefficient_names in *. cbn [map list_to_set] in *. set_solver.
Qed.
